(** * Franka-Teach: retargeting, teleoperation state machine and
      observation assembly

    A shallow embedding of

    - [frankateach/teleoperator.py]: [get_relative_affine] and the tick
      [FrankaOperator._apply_retargeted_angles], with [stream] iterating it;
    - [franka_env/envs/franka_env.py]: [FrankaEnv.__init__],
      [FrankaEnv._get_reskin_state], [FrankaEnv.reset], [FrankaEnv.step]
      and [FrankaEnv.render].

    Numbers.  The Python code computes in IEEE floating point.  Here every
    scalar lives in an arbitrary real field [F] (instantiated with the
    rationals for the concrete runs), so [+], [*], [<] are exact and
    [astype(np.float32)] is the identity.  [numpy.linalg.pinv] is the
    Moore-Penrose pseudo-inverse, defined below from a full-rank
    factorisation and characterised by the four Penrose equations; numpy's
    cut-off of tiny singular values ([rcond]) belongs to floating point
    and has no counterpart in exact arithmetic.

    Modules that the sources import but that are not at hand:
    - [frankateach.constants]: a record [constants] of parameters;
    - [frankateach.messages]: the records [FrankaState.t], [FrankaAction.t];
    - [frankateach.network]: the subscribers and the request socket are
      input feeds and an output log ([Feeds], [Channels]);
    - [deoxys.utils.transform_utils]: [quat2mat], [mat2quat] are section
      variables. *)

From HB Require Import structures.
From Stdlib Require Import String DecimalString DecimalNat.
From mathcomp Require Import boot order algebra.

Set Implicit Arguments.
Unset Strict Implicit.
Unset Printing Implicit Defensive.

Import Order.TTheory GRing.Theory Num.Theory.
Local Open Scope ring_scope.

(** * The model *)

(** ** Messages ([frankateach.messages]) *)

Module FrankaState.
Record t (F : Type) := Build {
  pos : 'cV[F]_3;
  quat : 'cV[F]_4;
  gripper : F;
  timestamp : F
}.
End FrankaState.

Module FrankaAction.
Record t (F : Type) := Build {
  pos : 'cV[F]_3;
  quat : 'cV[F]_4;
  gripper : F;
  reset : bool;
  timestamp : F
}.
End FrankaAction.

(** What [recv_keypoints] of the controller subscriber delivers: the
    attributes of the controller state that the tick reads. *)
Record ControllerState (F : Type) := MkControllerState {
  right_a : bool;
  right_b : bool;
  right_affine : 'M[F]_4;
  right_index_trigger : F;
  right_hand_trigger : F
}.

(** [frankateach.constants], not among the sources: a parameter. *)
Record constants (F : Type) := Constants {
  H_R_V : 'M[F]_4;
  H_R_V_star : 'M[F]_4;
  ROBOT_WORKSPACE_MIN : 'cV[F]_3;
  ROBOT_WORKSPACE_MAX : 'cV[F]_3;
  GRIPPER_OPEN : F;
  GRIPPER_CLOSE : F
}.

(** The attributes of a [FrankaOperator] object.  [home_rot] and [home_pos]
    do not exist before the first frame; [init_affine] holds [None] while
    teleoperation is off. *)
Record FrankaOperator (F : Type) := MkOperator {
  controller_state : option (ControllerState F);
  is_first_frame : bool;
  gripper_state : F;
  start_teleop : bool;
  init_affine : option 'M[F]_4;
  home_rot : option 'M[F]_3;
  home_pos : option 'cV[F]_3
}.

(** The outside of the operator: what the robot-state subscriber and the
    clock will deliver, read by position. *)
Record Feeds (F : Type) := MkFeeds {
  robot_states : nat -> FrankaState.t F;
  clock : nat -> F
}.

(** How far the feeds have been read, and the actions sent so far on the
    request socket, oldest first. *)
Record Channels (F : Type) := MkChannels {
  robot_reads : nat;
  clock_reads : nat;
  sent : seq (FrankaAction.t F)
}.

(** Python exceptions that the modelled code can raise. *)
Inductive exn :=
  AttributeError | TypeError | KeyError | ValueError | IndexError
| AssertionError.

(** A call of [_apply_retargeted_angles] either returns or raises; the
    object and the channels are as the call left them in both cases. *)
Inductive outcome (F : Type) :=
| Returned (s : FrankaOperator F) (c : Channels F)
| Raised (e : exn) (s : FrankaOperator F) (c : Channels F).

Section Model.
Variable F : realFieldType.

(** *** [numpy.linalg.pinv] *)

(** With [A = B *m C] a factorisation of [A] through its rank ([B] of full
    column rank, [C] of full row rank), the pseudo-inverse is
    [C^T (C C^T)^-1 (B^T B)^-1 B^T]. *)
Definition pinv m n (A : 'M[F]_(m, n)) : 'M[F]_(n, m) :=
  let B := col_base A in
  let C := row_base A in
  C^T *m invmx (C *m C^T) *m invmx (B^T *m B) *m B^T.

(** The four Penrose equations, which single out the pseudo-inverse. *)
Record penrose m n (A : 'M[F]_(m, n)) (X : 'M[F]_(n, m)) : Prop := Penrose {
  pen_AXA : A *m X *m A = A;
  pen_XAX : X *m A *m X = X;
  pen_AX_sym : (A *m X)^T = A *m X;
  pen_XA_sym : (X *m A)^T = X *m A
}.

(** *** Slices and assembly of 4x4 homogeneous matrices *)

(** [M[:3, :3]] *)
Definition rot_block (M : 'M[F]_4) : 'M[F]_3 := @ulsubmx F 3 1 3 1 M.
(** [M[:3, 3]] *)
Definition trans_block (M : 'M[F]_4) : 'cV[F]_3 := @ursubmx F 3 1 3 1 M.
(** [M[3, :]] *)
Definition bottom_row (M : 'M[F]_4) : 'rV[F]_4 := @dsubmx F 3 1 4 M.
(** The row [[0, 0, 0, 1]]. *)
Definition row_0001 : 'rV[F]_4 := @row_mx F 1 3 1 0 1.
(** [np.block([[R, t.reshape(3, 1)], [0, 0, 0, 1]])] *)
Definition homogeneous (R : 'M[F]_3) (t : 'cV[F]_3) : 'M[F]_4 :=
  @block_mx F 3 1 3 1 R t 0 1.

Variable K : constants F.

(** *** teleoperator.py, [get_relative_affine] *)

Definition get_relative_affine (init_affine current_affine : 'M[F]_4)
  : 'M[F]_4 :=
  let H_V_des := pinv init_affine *m current_affine in
  let relative_affine_rot :=
    rot_block (pinv (H_R_V K) *m H_V_des *m H_R_V K) in
  let relative_affine_trans :=
    trans_block (pinv (H_R_V_star K) *m H_V_des *m H_R_V_star K) in
  homogeneous relative_affine_rot relative_affine_trans.

(** *** deoxys' [transform_utils] and the feeds *)

Variable quat2mat : 'cV[F]_4 -> 'M[F]_3.
Variable mat2quat : 'M[F]_3 -> 'cV[F]_4.
Variable feeds : Feeds F.

(** [time.time()] *)
Definition time_time (c : Channels F) : F * Channels F :=
  (clock feeds (clock_reads c),
   MkChannels (robot_reads c) (clock_reads c).+1 (sent c)).

(** [self._robot_state_subscriber.recv_keypoints()] *)
Definition recv_robot_state (c : Channels F) : FrankaState.t F * Channels F :=
  (robot_states feeds (robot_reads c),
   MkChannels (robot_reads c).+1 (clock_reads c) (sent c)).

(** [self.socket.send(bytes(pickle.dumps(action, protocol=-1)))] followed by
    [ok_msg = self.socket.recv()], whose value is not used. *)
Definition socket_send (action : FrankaAction.t F) (c : Channels F)
  : Channels F :=
  MkChannels (robot_reads c) (clock_reads c) (rcons (sent c) action).

(** [np.clip(x, a_min, a_max)], that is
    [np.minimum(a_max, np.maximum(x, a_min))], component by component. *)
Definition np_clip (x a_min a_max : 'cV[F]_3) : 'cV[F]_3 :=
  \col_i Num.min (a_max i 0) (Num.max (x i 0) (a_min i 0)).

(** *** teleoperator.py, [FrankaOperator.__init__] *)

Definition FrankaOperator_init : FrankaOperator F :=
  MkOperator None true (GRIPPER_OPEN K) false None None None.

Definition Channels_init : Channels F := MkChannels 0 0 [::].

(** *** teleoperator.py, [FrankaOperator._apply_retargeted_angles] *)

(** Lines 66-85: the reset handshake of the first frame. *)
Definition reset_robot (s : FrankaOperator F) (c : Channels F)
  : FrankaOperator F * Channels F :=
  if is_first_frame s then
    let: (t, c) := time_time c in
    let action := FrankaAction.Build 0 0 (GRIPPER_OPEN K) true t in
    let c := socket_send action c in
    let: (robot_state, c) := recv_robot_state c in
    (MkOperator (controller_state s) false (gripper_state s)
       (start_teleop s) (init_affine s)
       (Some (quat2mat (FrankaState.quat robot_state)))
       (Some (FrankaState.pos robot_state)), c)
  else (s, c).

(** Lines 86-88: [if self.controller_state.right_a]. *)
Definition engage (cs : ControllerState F) (s : FrankaOperator F)
  : FrankaOperator F :=
  if right_a cs then
    MkOperator (controller_state s) (is_first_frame s) (gripper_state s)
      true (Some (right_affine cs)) (home_rot s) (home_pos s)
  else s.

(** Lines 89-97: [if self.controller_state.right_b]. *)
Definition disengage (cs : ControllerState F) (s : FrankaOperator F)
  (c : Channels F) : FrankaOperator F * Channels F :=
  if right_b cs then
    let: (robot_state, c) := recv_robot_state c in
    (MkOperator (controller_state s) (is_first_frame s) (gripper_state s)
       false None
       (Some (quat2mat (FrankaState.quat robot_state)))
       (Some (FrankaState.pos robot_state)), c)
  else (s, c).

(** Lines 99-105.  [get_relative_affine(None, _)] fails inside numpy's
    [pinv]; [None] stands for that failure, which the tick files under
    [TypeError]. *)
Definition relative_affine_of (cs : ControllerState F) (s : FrankaOperator F)
  : option 'M[F]_4 :=
  if start_teleop s then
    if init_affine s is Some A then
      Some (get_relative_affine A (right_affine cs))
    else None
  else Some (homogeneous 0 0).

(** Lines 107-111; [2%:R^-1] is the literal [0.5]. *)
Definition gripper_action (cs : ControllerState F) : option F :=
  if 2%:R^-1 < right_index_trigger cs then Some (GRIPPER_CLOSE K)
  else if 2%:R^-1 < right_hand_trigger cs then Some (GRIPPER_OPEN K)
  else None.

(** Lines 113-114. *)
Definition update_gripper (cs : ControllerState F) (s : FrankaOperator F)
  : FrankaOperator F :=
  if gripper_action cs is Some g then
    if g != gripper_state s then
      MkOperator (controller_state s) (is_first_frame s) g
        (start_teleop s) (init_affine s) (home_rot s) (home_pos s)
    else s
  else s.

(** Lines 116-136: the target pose; [None] when [self.home_pos] or
    [self.home_rot] does not exist yet. *)
Definition target_pose (relative_affine : 'M[F]_4) (s : FrankaOperator F)
  : option ('cV[F]_3 * 'cV[F]_4) :=
  if start_teleop s then
    let relative_pos := trans_block relative_affine in
    let relative_rot := rot_block relative_affine in
    if home_pos s is Some hp then
      if home_rot s is Some hr then
        let target_pos := hp + relative_pos in
        let target_rot := hr *m relative_rot in
        let target_quat := mat2quat target_rot in
        let target_pos :=
          np_clip target_pos (ROBOT_WORKSPACE_MIN K) (ROBOT_WORKSPACE_MAX K) in
        Some (target_pos, target_quat)
      else None
    else None
  else
    if home_pos s is Some hp then
      if home_rot s is Some hr then Some (hp, mat2quat hr) else None
    else None.

(** One call, on what [recv_keypoints] returned: a controller state, or
    Python's [None]. *)
Definition _apply_retargeted_angles (sample : option (ControllerState F))
  (s : FrankaOperator F) (c : Channels F) : outcome F :=
  let s := MkOperator sample (is_first_frame s) (gripper_state s)
             (start_teleop s) (init_affine s) (home_rot s) (home_pos s) in
  let: (s, c) := reset_robot s c in
  if sample is Some cs then
    let s := engage cs s in
    let: (s, c) := disengage cs s c in
    if relative_affine_of cs s is Some relative_affine then
      let s := update_gripper cs s in
      if target_pose relative_affine s is Some (target_pos, target_quat) then
        let: (t, c) := time_time c in
        let action :=
          FrankaAction.Build target_pos target_quat (gripper_state s) false t in
        Returned s (socket_send action c)
      else Raised AttributeError s c
    else Raised TypeError s c
  else Raised AttributeError s c.

(** [stream], cut after finitely many iterations: an exception other than
    [KeyboardInterrupt] ends the loop. *)
Fixpoint stream (samples : seq (option (ControllerState F)))
  (s : FrankaOperator F) (c : Channels F) : outcome F :=
  if samples is sample :: samples' then
    match _apply_retargeted_angles sample s c with
    | Returned s' c' => stream samples' s' c'
    | Raised e s' c' => Raised e s' c'
    end
  else Returned s c.

(** *** Notions for stating properties of the tick *)

(** States in which the attributes the tick relies on exist: an initial
    affine whenever teleoperation is on, a home pose once the first frame
    is over.  [FrankaOperator_init] is such a state and the tick keeps it
    so. *)
Definition well_formed (s : FrankaOperator F) : bool :=
  (start_teleop s ==> isSome (init_affine s))
  && (is_first_frame s || isSome (home_rot s) && isSome (home_pos s)).

(** The value of [self.start_teleop] once the two flags of the sample have
    been processed. *)
Definition engaged_on (cs : ControllerState F) (s : FrankaOperator F) : bool :=
  (right_a cs || start_teleop s) && ~~ right_b cs.

(** The gripper rule in the words of the specification: index trigger above
    0.5 requests CLOSED, otherwise hand trigger above 0.5 requests OPEN,
    otherwise the state stays. *)
Definition next_gripper (g : F) (cs : ControllerState F) : F :=
  if 2%:R^-1 < right_index_trigger cs then GRIPPER_CLOSE K
  else if 2%:R^-1 < right_hand_trigger cs then GRIPPER_OPEN K
  else g.

(** Both trigger axes at or below 0.5. *)
Definition low_triggers (cs : ControllerState F) : bool :=
  (right_index_trigger cs <= 2%:R^-1) && (right_hand_trigger cs <= 2%:R^-1).

(** The target actions on the socket, without the reset handshakes. *)
Definition commanded (c : Channels F) : seq (FrankaAction.t F) :=
  [seq a <- sent c | ~~ FrankaAction.reset a].

(** The robot state that the subscriber delivered last. *)
Definition last_robot_state (c : Channels F) : FrankaState.t F :=
  robot_states feeds (robot_reads c).-1.

End Model.

(** ** franka_env.py *)

(** A camera frame: only the shape of the array is kept. *)
Record image := Image { im_rows : nat; im_cols : nat; im_depth : nat }.

(** [cv2.resize(image, (width, height))] has [height] rows and [width]
    columns, and the depth of the frame. *)
Definition cv2_resize (im : image) (width height : nat) : image :=
  Image height width (im_depth im).

(** The arrays of an observation record: vectors by their entries, image
    arrays by their shape alone. *)
Inductive ndarray (F : Type) :=
| Vector (v : seq F)
| Pixels (rows cols depth : nat).

Definition shape F (a : ndarray F) : seq nat :=
  match a with
  | Vector v => [:: size v]
  | Pixels rows cols depth => [:: rows; cols; depth]
  end.

(** Python dictionaries with string keys, in insertion order. *)
Definition dict (V : Type) := seq (string * V).

(** [d[k] = v] *)
Fixpoint dict_set V (k : string) (v : V) (d : dict V) : dict V :=
  match d with
  | [::] => [:: (k, v)]
  | (k', v') :: d' =>
      if String.eqb k' k then (k', v) :: d' else (k', v') :: dict_set k v d'
  end.

(** [d.update(d2)] *)
Definition dict_update V (d d2 : dict V) : dict V :=
  foldl (fun d kv => dict_set kv.1 kv.2 d) d d2.

(** [d[k]] *)
Fixpoint dict_get V (k : string) (d : dict V) : option V :=
  match d with
  | [::] => None
  | (k', v) :: d' => if String.eqb k' k then Some v else dict_get k d'
  end.

(** The channel names of a record and the shape of each channel. *)
Definition channels_of F (obs : dict (ndarray F)) : seq (string * seq nat) :=
  [seq (kv.1, shape kv.2) | kv <- obs].

(** [str(i)] for a natural number. *)
Definition str (i : nat) : string := NilEmpty.string_of_uint (Nat.to_uint i).

(** The attributes of a [FrankaEnv] object.  An attribute that [__init__]
    assigns only on some paths is an [option], [None] while it does not
    exist.  [sensor_params] is [None] for Python's [None], else the entry
    of the dictionary under ["subtract_sensor_baseline"], if any;
    [sensor_prev_state] is [Some None] while it holds Python's [None];
    [image_subscribers] holds the number of camera subscribers. *)
Record FrankaEnv (F : Type) := MkEnv {
  width : nat;
  height : nat;
  channels : nat;
  feature_dim : nat;
  action_dim : nat;
  use_robot : bool;
  sensor_type : option string;
  sensor_params : option (option bool);
  n_channels : nat;
  reward : F;
  franka_state : option (FrankaState.t F);
  curr_images : option (seq image);
  image_subscribers : option nat;
  n_sensors : option nat;
  sensor_dim : option nat;
  sensor_prev_state : option (option (seq F));
  subtract_sensor_baseline : option bool;
  sensor_baseline : option (seq F)
}.

(** What the outside delivers during one call. *)
Record EnvFeed (F : Type) := MkEnvFeed {
  (** the [FrankaState] that answers the action on the request socket *)
  state_reply : FrankaState.t F;
  (** [recv_rgb_image()] of the subscriber of camera [i] *)
  frames : nat -> image;
  (** [get_sensor_state()["sensor_values"]], [None] without that key *)
  sensor_state : option (seq F);
  (** the [i]-th answer to [b"get_sensor_state"], as
      [ret["reskin"]["sensor_values"]], [None] without those keys *)
  sensor_replies : nat -> option (seq F)
}.

(** A method call returns a value or raises; the object is as the call
    left it in both cases. *)
Inductive result (F A : Type) :=
| Ok (a : A) (env : FrankaEnv F)
| Raise (e : exn) (env : FrankaEnv F).

Section EnvModel.
Variable F : realFieldType.

(** *** Method bodies: a state and exception monad over the object *)

Definition method (A : Type) := FrankaEnv F -> result F A.

Definition ret A (a : A) : method A := fun env => Ok a env.

Definition raise A (e : exn) : method A := fun env => Raise A e env.

Definition bind A B (m : method A) (k : A -> method B) : method B :=
  fun env =>
    match m env with
    | Ok a env' => k a env'
    | Raise e env' => Raise B e env'
    end.

Local Notation "x <- m ;; k" := (bind m (fun x => k))
  (at level 100, m at next level, right associativity).
Local Notation "m ;;; k" := (bind m (fun _ => k))
  (at level 100, right associativity).

(** [self.attr] *)
Definition getattr A (attr : FrankaEnv F -> option A) : method A :=
  fun env => if attr env is Some a then Ok a env else Raise A AttributeError env.

(** A partial operation that raises [e] where it is undefined. *)
Definition orelse A (e : exn) (o : option A) : method A :=
  if o is Some a then ret a else raise A e.

Definition modify (f : FrankaEnv F -> FrankaEnv F) : method unit :=
  fun env => Ok tt (f env).

(** [try: m except KeyError: handler] *)
Definition except_KeyError A (m handler : method A) : method A :=
  fun env =>
    match m env with
    | Raise KeyError env' => handler env'
    | r => r
    end.

(** Attribute assignments. *)
Definition set_franka_state (st : FrankaState.t F) (env : FrankaEnv F) :=
  MkEnv (width env) (height env) (channels env) (feature_dim env)
    (action_dim env) (use_robot env) (sensor_type env) (sensor_params env)
    (n_channels env) (reward env) (Some st) (curr_images env)
    (image_subscribers env) (n_sensors env) (sensor_dim env)
    (sensor_prev_state env) (subtract_sensor_baseline env)
    (sensor_baseline env).

Definition set_curr_images (ims : seq image) (env : FrankaEnv F) :=
  MkEnv (width env) (height env) (channels env) (feature_dim env)
    (action_dim env) (use_robot env) (sensor_type env) (sensor_params env)
    (n_channels env) (reward env) (franka_state env) (Some ims)
    (image_subscribers env) (n_sensors env) (sensor_dim env)
    (sensor_prev_state env) (subtract_sensor_baseline env)
    (sensor_baseline env).

Definition set_sensor_prev_state (v : seq F) (env : FrankaEnv F) :=
  MkEnv (width env) (height env) (channels env) (feature_dim env)
    (action_dim env) (use_robot env) (sensor_type env) (sensor_params env)
    (n_channels env) (reward env) (franka_state env) (curr_images env)
    (image_subscribers env) (n_sensors env) (sensor_dim env)
    (Some (Some v)) (subtract_sensor_baseline env) (sensor_baseline env).

Definition set_sensor_baseline (v : seq F) (env : FrankaEnv F) :=
  MkEnv (width env) (height env) (channels env) (feature_dim env)
    (action_dim env) (use_robot env) (sensor_type env) (sensor_params env)
    (n_channels env) (reward env) (franka_state env) (curr_images env)
    (image_subscribers env) (n_sensors env) (sensor_dim env)
    (sensor_prev_state env) (subtract_sensor_baseline env) (Some v).

(** *** numpy on one-dimensional arrays *)

(** [x - y] with broadcasting; [None] when the shapes do not fit. *)
Definition np_sub (x y : seq F) : option (seq F) :=
  if size x == size y then Some [seq xy.1 - xy.2 | xy <- zip x y]
  else if size y == 1%N then Some [seq a - head 0 y | a <- x]
  else if size x == 1%N then Some [seq head 0 x - b | b <- y]
  else None.

(** [np.mean(rows, axis=0)]; [None] when the rows are ragged or absent. *)
Definition np_mean_axis0 (rows : seq (seq F)) : option (seq F) :=
  if rows is row0 :: rows' then
    if all (fun row => size row == size row0) rows' then
      Some [seq foldr +%R 0 [seq nth 0 row j | row <- rows] / (size rows)%:R
           | j <- iota 0 (size row0)]
    else None
  else None.

(** [np.zeros(n)] *)
Definition np_zeros (n : nat) : seq F := nseq n 0.

(** [v[lo:hi]] *)
Definition slice (v : seq F) (lo hi : nat) : seq F := take (hi - lo) (drop lo v).

(** Every element of a list of optional values, if none is missing. *)
Fixpoint all_some A (xs : seq (option A)) : option (seq A) :=
  match xs with
  | [::] => Some [::]
  | x :: xs' =>
      if x is Some a then
        if all_some xs' is Some l then Some (a :: l) else None
      else None
  end.

Variable feed : EnvFeed F.

(** *** [FrankaEnv._get_reskin_state], lines 200-225 *)

(** Lines 216-224: the two channels of each sensor. *)
Definition reskin_channels (n_sensors sensor_dim : nat)
  (sensor_values sensor_diff : seq F) : dict (ndarray F) :=
  foldl
    (fun reskin_state sidx =>
       let sensor_key := String.append "sensor" (str sidx) in
       let reskin_state :=
         dict_set sensor_key
           (Vector (slice sensor_values (sidx * sensor_dim)
                      ((sidx + 1) * sensor_dim)))
           reskin_state in
       dict_set (String.append sensor_key "_diffs")
         (Vector (slice sensor_diff (sidx * sensor_dim)
                    ((sidx + 1) * sensor_dim)))
         reskin_state)
    [::] (iota 0 n_sensors).

(** The method reads [self.action_request_socket] at line 206, inside its
    baselining loop.  [__init__] assigns that attribute last, at line 83,
    after its own call of the method at line 81: [socket] tells whether
    the attribute exists when the method runs. *)
Definition get_reskin_state_with (socket update_baseline : bool)
  : method (dict (ndarray F)) :=
  sensor_values <- orelse KeyError (sensor_state feed) ;;
  (if update_baseline then
     (if socket then ret tt else raise unit AttributeError) ;;;
     baseline_meas <-
       orelse KeyError (all_some [seq sensor_replies feed i | i <- iota 0 5]) ;;
     mean <- orelse ValueError (np_mean_axis0 baseline_meas) ;;
     modify (set_sensor_baseline mean)
   else ret tt) ;;;
  subtract <- getattr (@subtract_sensor_baseline F) ;;
  sensor_values <-
    (if subtract then
       baseline <- getattr (@sensor_baseline F) ;;
       orelse ValueError (np_sub sensor_values baseline)
     else ret sensor_values) ;;
  prev <- getattr (@sensor_prev_state F) ;;
  prev <- orelse TypeError prev ;;
  sensor_diff <- orelse ValueError (np_sub sensor_values prev) ;;
  modify (set_sensor_prev_state sensor_values) ;;;
  n <- getattr (@n_sensors F) ;;
  dim <- (if n is 0%N then ret 0%N else getattr (@sensor_dim F)) ;;
  ret (reskin_channels n dim sensor_values sensor_diff).

(** The method as [step] and [reset] call it: both have sent on the
    socket by then (lines 110 and 153). *)
Definition _get_reskin_state (update_baseline : bool)
  : method (dict (ndarray F)) :=
  get_reskin_state_with true update_baseline.

(** *** [FrankaEnv.__init__], lines 23-83 *)

Definition is_reskin (ty : option string) : bool :=
  if ty is Some name then String.eqb name "reskin" else false.

(** Lines 59-69: [self.image_subscribers], one subscriber per camera. *)
Definition set_image_subscribers (num_cameras : nat) (env : FrankaEnv F) :=
  MkEnv (width env) (height env) (channels env) (feature_dim env)
    (action_dim env) (use_robot env) (sensor_type env) (sensor_params env)
    (n_channels env) (reward env) (franka_state env) (curr_images env)
    (Some num_cameras) (n_sensors env) (sensor_dim env)
    (sensor_prev_state env) (subtract_sensor_baseline env)
    (sensor_baseline env).

(** Lines 72-75: [n_sensors = 2], [sensor_dim = 15],
    [sensor_prev_state = None]. *)
Definition set_reskin_attributes (env : FrankaEnv F) :=
  MkEnv (width env) (height env) (channels env) (feature_dim env)
    (action_dim env) (use_robot env) (sensor_type env) (sensor_params env)
    (n_channels env) (reward env) (franka_state env) (curr_images env)
    (image_subscribers env) (Some 2%N) (Some 15%N)
    (Some None) (subtract_sensor_baseline env) (sensor_baseline env).

(** Lines 76-78. *)
Definition set_subtract_sensor_baseline (b : bool) (env : FrankaEnv F) :=
  MkEnv (width env) (height env) (channels env) (feature_dim env)
    (action_dim env) (use_robot env) (sensor_type env) (sensor_params env)
    (n_channels env) (reward env) (franka_state env) (curr_images env)
    (image_subscribers env) (n_sensors env) (sensor_dim env)
    (sensor_prev_state env) (Some b) (sensor_baseline env).

(** [sensor_params["subtract_sensor_baseline"]] *)
Definition lookup_subtract (params : option (option bool)) : method bool :=
  match params with
  | None => raise bool TypeError
  | Some None => raise bool KeyError
  | Some (Some b) => ret b
  end.

Definition FrankaEnv_init (num_cameras width height : nat) (use_robot : bool)
  (sensor_type : option string) (sensor_params : option (option bool))
  : result F unit :=
  let env :=
    MkEnv width height 3 8 7 use_robot sensor_type sensor_params 3 0
      None None None None None None None None in
  ((if sensor_type is Some name then
      if String.eqb name "reskin" then ret tt else raise unit AssertionError
    else ret tt) ;;;
   if use_robot then
     modify (set_image_subscribers num_cameras) ;;;
     if is_reskin sensor_type then
       modify set_reskin_attributes ;;;
       subtract <- lookup_subtract sensor_params ;;
       modify (set_subtract_sensor_baseline subtract) ;;;
       (* line 81, before the socket of line 83 exists *)
       get_reskin_state_with false true ;;;
       ret tt
     else ret tt
   else ret tt) env.

(** *** The observation of [step] (lines 111-139) and of [reset] with a
    robot (lines 156-185), which differ in [update_baseline] only *)

(** [np.concatenate((pos, quat, [gripper]))] *)
Definition features (st : FrankaState.t F) : seq F :=
  [seq FrankaState.pos st i 0 | i <- enum 'I_3]
  ++ [seq FrankaState.quat st i 0 | i <- enum 'I_4]
  ++ [:: FrankaState.gripper st].

Definition pixels_of (im : image) : ndarray F :=
  Pixels F (im_rows im) (im_cols im) (im_depth im).

Definition observe (update_baseline : bool) : method (dict (ndarray F)) :=
  let franka_state := state_reply feed in
  modify (set_franka_state franka_state) ;;;
  subscribers <- getattr (@image_subscribers F) ;;
  let image_list := [seq frames feed i | i <- iota 0 subscribers] in
  modify (set_curr_images image_list) ;;;
  let obs : dict (ndarray F) :=
    [:: ("features"%string, Vector (features franka_state));
        ("proprioceptive"%string, Vector (features franka_state))] in
  reskin <- (fun env => Ok (is_reskin (sensor_type env)) env) ;;
  obs <-
    (if reskin then
       except_KeyError
         (reskin_state <- _get_reskin_state update_baseline ;;
          ret (dict_update obs reskin_state))
         (ret obs)
     else ret obs) ;;
  fun env =>
    Ok (foldl
          (fun obs i_image =>
             dict_set (String.append "pixels" (str i_image.1))
               (pixels_of (cv2_resize i_image.2 (width env) (height env)))
               obs)
          obs (zip (iota 0 (size image_list)) image_list))
       env.

(** *** [FrankaEnv.reset], lines 141-198 *)

Definition reset : method (dict (ndarray F)) :=
  fun env =>
    if use_robot env then observe true env
    else
      (let obs : dict (ndarray F) :=
         dict_set "proprioceptive" (Vector (np_zeros (feature_dim env)))
           (dict_set "features" (Vector (np_zeros (feature_dim env))) [::]) in
       n <- getattr (@n_sensors F) ;;
       dim <- getattr (@sensor_dim F) ;;
       let obs :=
         foldl
           (fun obs sensor_idx =>
              let key := String.append "sensor" (str sensor_idx) in
              dict_set (String.append key "_diffs") (Vector (np_zeros dim))
                (dict_set key (Vector (np_zeros dim)) obs))
           obs (iota 0 n) in
       modify (set_sensor_baseline (np_zeros (dim * n))) ;;;
       ret (dict_set "pixels"
              (Pixels F (height env) (width env) (n_channels env)) obs)) env.

(** *** [FrankaEnv.step], lines 91-139; the action itself, sent on the
    request socket, is not recorded *)

Definition step (abs_action : seq F) : method (dict (ndarray F) * F * bool) :=
  (if abs_action is [::] then raise unit IndexError else ret tt) ;;;
  fun env =>
    if use_robot env then
      (obs <- observe false ;; ret (obs, reward env, false)) env
    else Raise _ AttributeError env.

End EnvModel.

(** ** More of franka_env.py *)

(** What [render] can raise: the exceptions above, [NotImplementedError],
    or the [cv2.error] of [cv2.resize]. *)
Inductive render_exn :=
  RenderRaised (e : exn) | NotImplementedError | cv2_error.

(** [cv2.resize] refuses an empty frame and an empty target size. *)
Definition resizable (im : image) (width height : nat) : bool :=
  [&& (0 < im_rows im)%N, (0 < im_cols im)%N, (0 < im_depth im)%N,
      (0 < width)%N & (0 < height)%N].

Section EnvModelMore.
Variable F : realFieldType.

(** An object that differs from [env] in the two attributes that
    [_get_reskin_state] assigns, if at all. *)
Definition with_tactile (prev : option (option (seq F)))
  (baseline : option (seq F)) (env : FrankaEnv F) : FrankaEnv F :=
  MkEnv (width env) (height env) (channels env) (feature_dim env)
    (action_dim env) (use_robot env) (sensor_type env) (sensor_params env)
    (n_channels env) (reward env) (franka_state env) (curr_images env)
    (image_subscribers env) (n_sensors env) (sensor_dim env)
    prev (subtract_sensor_baseline env) baseline.

(** The frames of the first [n] cameras can be resized to [width] by
    [height]. *)
Definition frames_resizable (feed : EnvFeed F) (width height n : nat) : bool :=
  all (fun i => resizable (frames feed i) width height) (iota 0 n).

(** *** [FrankaEnv.render], lines 227-236 *)

(** [np.concatenate(images, axis=1)]: the images side by side; [None]
    for an empty list and for images that differ in rows or depth. *)
Definition np_concatenate_axis1 (images : seq image) : option image :=
  if images is im :: images' then
    if all (fun im' => (im_rows im' == im_rows im)
                       && (im_depth im' == im_depth im)) images' then
      Some (Image (im_rows im) (sumn [seq im_cols x | x <- images])
              (im_depth im))
    else None
  else None.

Definition render (mode : string) (width height : nat) (env : FrankaEnv F)
  : image + render_exn :=
  if curr_images env is Some images then
    if String.eqb mode "rgb_array" then
      if all (fun im => resizable im width height) images then
        let image_list := [seq cv2_resize im width height | im <- images] in
        if np_concatenate_axis1 image_list is Some out then inl out
        else inr (RenderRaised ValueError)
      else inr cv2_error
    else inr NotImplementedError
  else inr (RenderRaised AssertionError).

End EnvModelMore.

(** ** Concrete inputs over the rationals *)

(** Identity frame alignment, the unit cube as workspace, and the gripper
    codes -1 (open) and 1 (closed). *)
Definition unit_calibration : constants rat :=
  Constants 1%:M 1%:M (const_mx 0) (const_mx 1) (-1) 1.

(** A homogeneous matrix with a singular (zero) rotation block. *)
Definition flat_affine : 'M[rat]_4 := homogeneous 0 0.

(** The translation by (1, 1, 1). *)
Definition shifted_affine : 'M[rat]_4 := homogeneous 1%:M (const_mx 1).

(** Stand-ins for deoxys' conversions: every orientation is the identity. *)
Definition quat2mat_id (q : 'cV[rat]_4) : 'M[rat]_3 := 1%:M.
Definition mat2quat_id (R : 'M[rat]_3) : 'cV[rat]_4 := 0.

(** A robot at rest at the origin and a clock that stands still. *)
Definition robot_at_rest : FrankaState.t rat := FrankaState.Build 0 0 (-1) 0.
Definition still_feeds : Feeds rat := MkFeeds (fun _ => robot_at_rest) (fun _ => 0).

(** An operator after its first frame, homed at the origin, not engaged. *)
Definition homed_idle : FrankaOperator rat :=
  MkOperator None false (-1) false None (Some 1%:M) (Some 0).

(** The same operator, engaged on a singular initial affine. *)
Definition engaged_flat : FrankaOperator rat :=
  MkOperator None false (-1) true (Some flat_affine) (Some 1%:M) (Some 0).

(** Controller samples: no button, A (engage), B (disengage), both. *)
Definition sample_none : ControllerState rat :=
  MkControllerState false false 1%:M 0 0.
Definition sample_a : ControllerState rat :=
  MkControllerState true false 1%:M 0 0.
Definition sample_b : ControllerState rat :=
  MkControllerState false true 1%:M 0 0.
Definition sample_ab : ControllerState rat :=
  MkControllerState true true 1%:M 0 0.


(** The sensor reads 1.5 throughout, every baseline sample 1. *)
Definition tactile_feed : EnvFeed rat :=
  MkEnvFeed robot_at_rest (fun _ => Image 480 640 3)
    (Some (nseq 30 (3%:R / 2%:R))) (fun _ => Some (nseq 30 1)).

(** An environment with a robot and one camera, without the tactile
    sensor, as [__init__] builds it. *)
Definition camera_env : FrankaEnv rat :=
  MkEnv 640 480 3 8 7 true None None 3 0
    None None (Some 1%N) None None None None None.

(** An environment without a robot into which [n_sensors] and
    [sensor_dim] have been patched. *)
Definition patched_dry_env : FrankaEnv rat :=
  MkEnv 640 480 3 8 7 false None None 3 0
    None None None (Some 2%N) (Some 15%N) None None None.

(** Further concrete inputs. *)

(** A position inside the unit cube. *)
Definition cube_corner : 'cV[rat]_3 := const_mx 0.

(** [camera_env] after a [reset], and the record that [reset] returns. *)
Definition camera_env_after : FrankaEnv rat :=
  MkEnv 640 480 3 8 7 true None None 3 0
    (Some robot_at_rest) (Some [:: Image 480 640 3]) (Some 1%N)
    None None None None None.

Definition camera_obs : dict (ndarray rat) :=
  [:: ("features"%string, Vector (features robot_at_rest));
      ("proprioceptive"%string, Vector (features robot_at_rest));
      ("pixels0"%string, Pixels rat 480 640 3)].





(** A robot that is homed outside the unit cube, at (2, 2, 2), and is at
    the corner (1, 1, 1) of the cube whenever its state is read again. *)
Definition robot_at (p : rat) : FrankaState.t rat :=
  FrankaState.Build (const_mx p) 0 (-1) 0.

Definition clamped_feeds : Feeds rat :=
  MkFeeds (fun i => if i is 0%N then robot_at 2%:R else robot_at 1)
    (fun _ => 0).
(** * Properties *)

(** ** The pseudo-inverse *)

Section PseudoInverse.
Variable F : realFieldType.

Lemma mulmx_tr_eq0 m n (W : 'M[F]_(m, n)) : W *m W^T = 0 -> W = 0.
Proof.
move=> W0; apply/matrixP=> i j; rewrite [RHS]mxE.
move: (congr1 (fun M : 'M_m => M i i) W0) => /eqP.
rewrite !mxE psumr_eq0 => [k _|]; first by rewrite mxE -expr2 sqr_ge0.
by move=> /allP /(_ j); rewrite mem_index_enum mxE mulf_eq0 orbb => /(_ isT) /eqP.
Qed.

Lemma gram_unit r n (C : 'M[F]_(r, n)) : row_free C -> C *m C^T \in unitmx.
Proof.
move=> Cfree; rewrite -row_free_unit -kermx_eq0; apply/eqP.
have := mulmx_ker (C *m C^T); set K := kermx _ => KCC.
apply: (row_free_inj Cfree); rewrite mul0mx; apply: mulmx_tr_eq0.
by rewrite trmx_mul mulmxA -[K *m C *m _]mulmxA KCC mul0mx.
Qed.


Section FullRankFactors.
Variables (m r n : nat) (B : 'M[F]_(m, r)) (C : 'M[F]_(r, n)).
Hypothesis Bgram : B^T *m B \in unitmx.
Hypothesis Cgram : C *m C^T \in unitmx.

Let X := C^T *m invmx (C *m C^T) *m invmx (B^T *m B) *m B^T.

Lemma factors_mul_pinv : B *m C *m X = B *m invmx (B^T *m B) *m B^T.
Proof.
rewrite /X !mulmxA; congr (_ *m _ *m _).
by rewrite -[B *m C *m C^T]mulmxA mulmxK.
Qed.

Lemma factors_pinv_mul : X *m (B *m C) = C^T *m invmx (C *m C^T) *m C.
Proof.
rewrite /X !mulmxA; congr (_ *m _).
by rewrite -[_ *m B^T *m B]mulmxA mulmxKV.
Qed.

Lemma factors_penrose : penrose (B *m C) X.
Proof.
split.
- by rewrite factors_mul_pinv mulmxA -[_ *m B^T *m B]mulmxA mulmxKV.
- rewrite factors_pinv_mul {2}/X !mulmxA.
  by rewrite -[_ *m C *m C^T]mulmxA mulmxKV.
- by rewrite factors_mul_pinv !trmx_mul trmxK trmx_inv trmx_mul trmxK mulmxA.
- by rewrite factors_pinv_mul !trmx_mul trmxK trmx_inv trmx_mul trmxK mulmxA.
Qed.

End FullRankFactors.

Lemma col_gram_unit m n (A : 'M[F]_(m, n)) :
  (col_base A)^T *m col_base A \in unitmx.
Proof.
rewrite -{2}[col_base A]trmxK; apply: gram_unit.
by rewrite /row_free mxrank_tr; exact: col_base_full.
Qed.

Lemma row_gram_unit m n (A : 'M[F]_(m, n)) :
  row_base A *m (row_base A)^T \in unitmx.
Proof. exact/gram_unit/row_base_free. Qed.

Lemma pinv_penrose m n (A : 'M[F]_(m, n)) : penrose A (pinv A).
Proof.
rewrite -{1}[A]mulmx_base.
exact: (factors_penrose (col_gram_unit A) (row_gram_unit A)).
Qed.

Lemma penrose_uniq m n (A : 'M[F]_(m, n)) (X Y : 'M[F]_(n, m)) :
  penrose A X -> penrose A Y -> X = Y.
Proof.
move=> [X1 X2 X3 X4] [Y1 Y2 Y3 Y4].
have XAY : X = X *m A *m Y.
  rewrite -{1}X2 -mulmxA -X3 -{1}Y1 -[A *m Y *m A *m X]mulmxA.
  by rewrite trmx_mul X3 Y3 !mulmxA X2.
have YAX : Y = X *m A *m Y.
  rewrite -{1}Y2 -Y4 -{1}X1 -[A *m X *m A]mulmxA [Y *m (A *m _)]mulmxA.
  by rewrite trmx_mul X4 Y4 -[X *m A *m _ *m Y]mulmxA Y2.
by rewrite XAY -YAX.
Qed.

Lemma pinv_unit n (A : 'M[F]_n) : A \in unitmx -> pinv A = invmx A.
Proof.
move=> Au; apply: (can_inj (mulKmx Au)); apply: (can_inj (mulmxK Au)).
by rewrite mulmxV // mul1mx; exact: pen_AXA (pinv_penrose A).
Qed.

Lemma pinv_sym_idem n (D : 'M[F]_n) : D^T = D -> D *m D = D -> pinv D = D.
Proof.
move=> Dsym Didem; apply: penrose_uniq (pinv_penrose D) _.
by split; rewrite ?Didem.
Qed.

End PseudoInverse.

(** ** The retargeting function *)

Section Retargeting.
Variable F : realFieldType.
Variable K : constants F.

Lemma rot_block_homogeneous (R : 'M[F]_3) t : rot_block (homogeneous R t) = R.
Proof. exact: block_mxKul. Qed.

Lemma trans_block_homogeneous (R : 'M[F]_3) t :
  trans_block (homogeneous R t) = t.
Proof. exact: block_mxKur. Qed.

Lemma bottom_row_homogeneous (R : 'M[F]_3) t :
  bottom_row (homogeneous R t) = row_0001 F.
Proof. by rewrite /bottom_row /homogeneous /block_mx col_mxKd. Qed.

Lemma homogeneous_id : homogeneous 1%:M 0 = 1%:M :> 'M[F]_4.
Proof. by rewrite /homogeneous -scalar_mx_block. Qed.

Lemma rot_block_id : rot_block (1%:M : 'M[F]_4) = 1%:M.
Proof. by rewrite -homogeneous_id rot_block_homogeneous. Qed.

Lemma trans_block_id : trans_block (1%:M : 'M[F]_4) = 0.
Proof. by rewrite -homogeneous_id trans_block_homogeneous. Qed.

(** With invertible arguments every [pinv] in [get_relative_affine] is the
    inverse. *)
Lemma get_relative_affine_unit (init_affine current_affine : 'M[F]_4) :
  H_R_V K \in unitmx -> H_R_V_star K \in unitmx -> init_affine \in unitmx ->
  get_relative_affine K init_affine current_affine =
  homogeneous
    (rot_block (invmx (H_R_V K) *m (invmx init_affine *m current_affine)
                *m H_R_V K))
    (trans_block (invmx (H_R_V_star K)
                  *m (invmx init_affine *m current_affine) *m H_R_V_star K)).
Proof. by move=> Hu Hsu Au; rewrite /get_relative_affine !pinv_unit. Qed.

(** C1: for invertible [init_affine] (and invertible alignment constants,
    which [inverse(H_R_V)] presupposes) the result has the rotation block of
    [inverse(H_R_V) @ (inverse(init_affine) @ current_affine) @ H_R_V], the
    translation block of the same product taken with [H_R_V_star], and the
    bottom row [[0, 0, 0, 1]]. *)
Theorem get_relative_affine_invertible (init_affine current_affine : 'M[F]_4) :
  H_R_V K \in unitmx -> H_R_V_star K \in unitmx -> init_affine \in unitmx ->
  let H_delta := invmx init_affine *m current_affine in
  let relative_affine := get_relative_affine K init_affine current_affine in
  [/\ rot_block relative_affine
        = rot_block (invmx (H_R_V K) *m H_delta *m H_R_V K),
      trans_block relative_affine
        = trans_block (invmx (H_R_V_star K) *m H_delta *m H_R_V_star K)
    & bottom_row relative_affine = row_0001 F].
Proof.
move=> Hu Hsu Au /=; rewrite get_relative_affine_unit //.
by rewrite rot_block_homogeneous trans_block_homogeneous bottom_row_homogeneous.
Qed.

(** The delta of a pose against itself is the identity. *)
Lemma get_relative_affine_self (A : 'M[F]_4) :
  H_R_V K \in unitmx -> H_R_V_star K \in unitmx -> A \in unitmx ->
  get_relative_affine K A A = 1%:M.
Proof.
move=> Hu Hsu Au; rewrite get_relative_affine_unit // mulVmx // !mulmx1.
by rewrite !mulVmx // rot_block_id trans_block_id homogeneous_id.
Qed.

(** C7: [get_relative_affine(A, A)] is the 4x4 identity for every
    invertible [A], the alignment constants being invertible too (exactly
    so, the arithmetic being exact). *)
Theorem get_relative_affine_same (A : 'M[F]_4) :
  H_R_V K \in unitmx -> H_R_V_star K \in unitmx -> A \in unitmx ->
  get_relative_affine K A A = 1%:M.
Proof. exact: get_relative_affine_self. Qed.

(** C6, as the code has it: whatever [init_affine] is, singular or not, the
    call returns the matrix assembled from a pseudo-inverse of it, namely
    from the one matrix [X] that satisfies the four Penrose equations. *)
Theorem get_relative_affine_pseudo_inverse
    (init_affine current_affine X : 'M[F]_4) :
  penrose init_affine X ->
  get_relative_affine K init_affine current_affine =
  homogeneous
    (rot_block (pinv (H_R_V K) *m (X *m current_affine) *m H_R_V K))
    (trans_block (pinv (H_R_V_star K) *m (X *m current_affine)
                  *m H_R_V_star K)).
Proof.
by move=> /(penrose_uniq (pinv_penrose init_affine)) <-.
Qed.

End Retargeting.

Lemma flat_affine_sym : flat_affine^T = flat_affine.
Proof.
rewrite /flat_affine /homogeneous; apply: etrans (@tr_block_mx _ 3 1 3 1 _ _ _ _) _.
by rewrite !trmx0 trmx1.
Qed.

Lemma flat_affine_idem : flat_affine *m flat_affine = flat_affine.
Proof.
rewrite /flat_affine /homogeneous; apply: etrans (@mulmx_block _ 3 1 3 1 3 1 _ _ _ _ _ _ _ _) _.
by rewrite !mul0mx !mulmx0 !mulmx1 !addr0 add0r.
Qed.

Lemma flat_affine_singular : flat_affine \notin unitmx.
Proof.
have det_flat : \det flat_affine = \det (0 : 'M[rat]_3) * \det (1 : 'M[rat]_1).
  exact: (@det_ublock _ 3 1 0 0 1).
by rewrite unitmxE det_flat det0 mul0r unitr0.
Qed.

Lemma pinv_flat_affine : pinv flat_affine = flat_affine.
Proof. exact: pinv_sym_idem flat_affine_sym flat_affine_idem. Qed.

Lemma unit_calibration_unit :
  H_R_V unit_calibration \in unitmx /\ H_R_V_star unit_calibration \in unitmx.
Proof. by rewrite /= !unitmx1. Qed.

(** ** The teleoperation state machine *)

Section Teleop.
Variable F : realFieldType.
Variable K : constants F.
Variable quat2mat : 'cV[F]_4 -> 'M[F]_3.
Variable mat2quat : 'M[F]_3 -> 'cV[F]_4.
Variable feeds : Feeds F.

Local Notation tick := (_apply_retargeted_angles K quat2mat mat2quat feeds).
Local Notation run := (stream K quat2mat mat2quat feeds).
Local Notation MIN := (ROBOT_WORKSPACE_MIN K).
Local Notation MAX := (ROBOT_WORKSPACE_MAX K).

(** Lays the stages of the tick open. *)
Ltac open_tick :=
  rewrite /_apply_retargeted_angles /reset_robot /engage /disengage
    /relative_affine_of /target_pose /last_robot_state /commanded.

Lemma well_formed_init : well_formed (FrankaOperator_init K).
Proof. by []. Qed.

(** Lines 107-114 amount to the gripper rule of the specification. *)
Lemma update_gripperE cs s :
  update_gripper K cs s =
  MkOperator (controller_state s) (is_first_frame s)
    (next_gripper K (gripper_state s) cs)
    (start_teleop s) (init_affine s) (home_rot s) (home_pos s).
Proof.
rewrite /update_gripper /gripper_action /next_gripper; case: s => ? ? g * /=.
by do 2![case: ifP => _; first by case: eqP => // <-].
Qed.

(** A tick on a sample, from a well-formed state: it returns, and this is
    what it leaves behind. *)
Lemma tick_spec cs s c : well_formed s ->
  exists s' c' action,
  [/\ tick (Some cs) s c = Returned s' c',
      [/\ well_formed s', is_first_frame s' = false,
          start_teleop s' = engaged_on cs s
        & gripper_state s' = next_gripper K (gripper_state s) cs],
      [/\ init_affine s' =
            (if right_b cs then None
             else if right_a cs then Some (right_affine cs) else init_affine s),
          robot_reads c' = (robot_reads c + is_first_frame s + right_b cs)%N
        & (home_rot s', home_pos s') =
            if right_b cs || is_first_frame s then
              (Some (quat2mat (FrankaState.quat (last_robot_state feeds c'))),
               Some (FrankaState.pos (last_robot_state feeds c')))
            else (home_rot s, home_pos s)],
      [/\ commanded c' = rcons (commanded c) action,
          FrankaAction.reset action = false
        & FrankaAction.gripper action = gripper_state s']
    & exists2 relative_affine,
        relative_affine_of K cs s' = Some relative_affine
      & target_pose K mat2quat relative_affine s'
        = Some (FrankaAction.pos action, FrankaAction.quat action)].
Proof.
rewrite /well_formed /engaged_on; open_tick.
case: s => cst [] g [] [ia|] [hr|] [hp|] //=; case: cs => [[] [] P it ht] /= _;
  rewrite !update_gripperE /=; eexists _, _, _;
  by split; [reflexivity | split | rewrite ?addn0 ?addn1; split
            | rewrite /= ?filter_rcons /=; split | eexists].
Qed.

(** The target of an idle tick is the home pose. *)
Lemma target_pose_idle relative_affine s hr hp :
  start_teleop s = false -> home_rot s = Some hr -> home_pos s = Some hp ->
  target_pose K mat2quat relative_affine s = Some (hp, mat2quat hr).
Proof. by rewrite /target_pose => -> -> ->. Qed.

(** The target of an engaged tick. *)
Lemma target_pose_engaged relative_affine s hr hp :
  start_teleop s -> home_rot s = Some hr -> home_pos s = Some hp ->
  target_pose K mat2quat relative_affine s =
  Some (np_clip (hp + trans_block relative_affine) MIN MAX,
        mat2quat (hr *m rot_block relative_affine)).
Proof. by rewrite /target_pose => -> -> ->. Qed.

(** [np.clip] on one axis of a box. *)
Lemma np_clipE (x : 'cV[F]_3) i :
  MIN i 0 <= MAX i 0 ->
  np_clip x MIN MAX i 0 =
  if x i 0 < MIN i 0 then MIN i 0
  else if MAX i 0 < x i 0 then MAX i 0 else x i 0.
Proof.
move=> box; rewrite /np_clip mxE.
by case: (ltP (x i 0) (MIN i 0)) => // _; apply/min_idPr.
Qed.

Lemma np_clip_in_box (x : 'cV[F]_3) i :
  MIN i 0 <= MAX i 0 -> MIN i 0 <= np_clip x MIN MAX i 0 <= MAX i 0.
Proof.
move=> box; rewrite np_clipE //.
case: ltP => [_|lo]; first by rewrite lexx.
by case: ltP => [_|hi]; rewrite ?lexx ?box ?lo ?hi.
Qed.

(** C2: on an engaged tick the commanded position is [home_pos] plus the
    relative translation, clamped axis by axis into the workspace box (a
    component below the box becomes the lower bound, one above it the upper
    bound, and the tick goes on to send the action); the commanded rotation
    is [home_rot @ relative rotation]. *)
Theorem engaged_tick_command cs s c :
  well_formed s -> (forall i, MIN i 0 <= MAX i 0) -> engaged_on cs s ->
  exists s' c' action hp hr A,
  [/\ tick (Some cs) s c = Returned s' c' /\ start_teleop s',
      [/\ home_pos s' = Some hp, home_rot s' = Some hr
        & init_affine s' = Some A],
      commanded c' = rcons (commanded c) action
    & let relative_affine := get_relative_affine K A (right_affine cs) in
      let target_pos := hp + trans_block relative_affine in
      [/\ FrankaAction.pos action = np_clip target_pos MIN MAX,
          forall i,
            FrankaAction.pos action i 0 =
            (if target_pos i 0 < MIN i 0 then MIN i 0
             else if MAX i 0 < target_pos i 0 then MAX i 0
             else target_pos i 0),
          forall i, MIN i 0 <= FrankaAction.pos action i 0 <= MAX i 0
        & FrankaAction.quat action =
          mat2quat (hr *m rot_block relative_affine)]].
Proof.
move=> wf_s box eng.
have [s' [c' [action [tickE [wf_s' ff' st' _] _ [cmd _ _] [R RE tgt]]]]] :=
  tick_spec cs c wf_s.
rewrite eng in st'; move: wf_s' RE tgt; rewrite /well_formed /relative_affine_of.
rewrite st' ff' /=; case iaE: (init_affine s') => [A|] //=.
case hrE: (home_rot s') => [hr|] //=; case hpE: (home_pos s') => [hp|] //= _.
move=> [<-]; rewrite (target_pose_engaged _ st' hrE hpE) => -[posE quatE].
exists s', c', action, hp, hr, A; split=> //=; rewrite -posE -quatE.
by split=> // i; [exact: np_clipE | exact: np_clip_in_box].
Qed.

(** Triggers at or below 0.5 request nothing. *)
Lemma next_gripper_low g cs :
  right_index_trigger cs <= 2%:R^-1 -> right_hand_trigger cs <= 2%:R^-1 ->
  next_gripper K g cs = g.
Proof. by rewrite /next_gripper !ltNge => -> ->. Qed.

Lemma foldl_next_gripper_low g samples :
  all (@low_triggers F) samples -> foldl (next_gripper K) g samples = g.
Proof.
elim: samples => //= cs samples IH /andP[/andP[it ht] low].
by rewrite next_gripper_low // IH.
Qed.

(** The gripper along a run of ticks. *)
Lemma stream_gripper samples s c : well_formed s ->
  exists s' c',
  [/\ run [seq Some cs | cs <- samples] s c = Returned s' c',
      well_formed s',
      gripper_state s' = foldl (next_gripper K) (gripper_state s) samples
    & [seq FrankaAction.gripper a | a <- commanded c'] =
      [seq FrankaAction.gripper a | a <- commanded c]
      ++ scanl (next_gripper K) (gripper_state s) samples].
Proof.
elim: samples s c => [|cs samples IH] s c wf_s /=.
  by exists s, c; rewrite cats0.
have [s1 [c1 [action [-> [wf_s1 _ _ g1] _ [cmd _ ga] _]]]] :=
  tick_spec cs c wf_s.
have [s' [c' [-> wf_s' gE cmd']]] := IH s1 c1 wf_s1.
exists s', c'; split=> //; first by rewrite gE g1.
by rewrite cmd' cmd map_rcons ga g1 -cats1 -catA.
Qed.

(** C3: along every sequence of ticks the gripper state follows the rule
    "index trigger above 0.5: CLOSED; else hand trigger above 0.5: OPEN;
    else unchanged", the action of each tick carries the gripper state as
    that tick left it, and triggers that stay at or below 0.5 on both axes
    never change the gripper state. *)
Theorem gripper_follows_triggers samples s c : well_formed s ->
  exists s' c',
  [/\ run [seq Some cs | cs <- samples] s c = Returned s' c',
      gripper_state s' = foldl (next_gripper K) (gripper_state s) samples,
      [seq FrankaAction.gripper a | a <- commanded c'] =
      [seq FrankaAction.gripper a | a <- commanded c]
      ++ scanl (next_gripper K) (gripper_state s) samples
    & all (@low_triggers F) samples -> gripper_state s' = gripper_state s].
Proof.
move=> /(stream_gripper samples c) [s' [c' [runE _ gE cmd]]].
by exists s', c'; split=> // /(foldl_next_gripper_low (gripper_state s)) <-.
Qed.

(** C10: with both flags set the disengage wins: teleoperation is off,
    [init_affine] is [None], the home pose is the robot state read during
    this very tick, and that home pose is what the tick commands. *)
Theorem disengage_takes_precedence cs s c :
  right_a cs -> right_b cs ->
  exists s' c' action,
  [/\ tick (Some cs) s c = Returned s' c',
      start_teleop s' = false /\ init_affine s' = None,
      [/\ (robot_reads c < robot_reads c')%N,
          home_rot s'
          = Some (quat2mat (FrankaState.quat (last_robot_state feeds c')))
        & home_pos s' = Some (FrankaState.pos (last_robot_state feeds c'))],
      commanded c' = rcons (commanded c) action
    & [/\ FrankaAction.pos action = FrankaState.pos (last_robot_state feeds c'),
          FrankaAction.quat action
          = mat2quat (quat2mat (FrankaState.quat (last_robot_state feeds c')))
        & FrankaAction.reset action = false]].
Proof.
open_tick; case: cs => a b P it ht /= -> ->; case: s => cst [] g st ia hr hp /=;
  rewrite update_gripperE /=; eexists _, _, _;
  by split; [reflexivity | split | split
            | rewrite /= ?filter_rcons /= | split].
Qed.

(** C9, as the code has it: there is no skip.  Handed [None] for a sample,
    the tick raises [AttributeError] when it reads the flags: no target
    action goes out and gripper state, engagement and initial affine are
    untouched (after the first frame nothing at all is sent and the home
    pose is untouched too; on the first frame the reset handshake has
    already run).  Handed a sample, it always sends one target action. *)
Theorem no_sample_raises cs s c :
  well_formed s ->
  (exists s' c',
    [/\ tick None s c = Raised AttributeError s' c',
        [/\ gripper_state s' = gripper_state s,
            start_teleop s' = start_teleop s
          & init_affine s' = init_affine s],
        commanded c' = commanded c
      & ~~ is_first_frame s ->
        [/\ sent c' = sent c, home_rot s' = home_rot s
          & home_pos s' = home_pos s]])
  /\ (exists s' c' action,
       [/\ tick (Some cs) s c = Returned s' c',
           commanded c' = rcons (commanded c) action
         & FrankaAction.reset action = false]).
Proof.
move=> wf_s; split; last first.
  have [s' [c' [action [tickE _ _ [cmd rst _] _]]]] := tick_spec cs c wf_s.
  by exists s', c', action.
open_tick; case: s {wf_s} => cst [] g st ia hr hp /=; eexists _, _;
  by split; [reflexivity | split | rewrite /= ?filter_rcons | ].
Qed.

(** A tick that leaves teleoperation off commands the home pose it leaves. *)
Lemma idle_tick cs s c :
  well_formed s -> engaged_on cs s = false ->
  exists s' c' action hr hp,
  [/\ tick (Some cs) s c = Returned s' c',
      [/\ well_formed s', is_first_frame s' = false, start_teleop s' = false
        & init_affine s' =
            (if right_b cs then None
             else if right_a cs then Some (right_affine cs)
             else init_affine s)],
      [/\ home_rot s' = Some hr, home_pos s' = Some hp
        & (home_rot s', home_pos s') =
            if right_b cs || is_first_frame s then
              (Some (quat2mat (FrankaState.quat (last_robot_state feeds c'))),
               Some (FrankaState.pos (last_robot_state feeds c')))
            else (home_rot s, home_pos s)],
      robot_reads c' = (robot_reads c + is_first_frame s + right_b cs)%N
    & [/\ commanded c' = rcons (commanded c) action,
          FrankaAction.pos action = hp
        & FrankaAction.quat action = mat2quat hr]].
Proof.
move=> wf_s eng.
have [s' [c' [action [tickE [wf_s' ff' st' _] [ia rd hm] [cmd _ _] [R _]]]]] :=
  tick_spec cs c wf_s.
rewrite eng in st'; move: (wf_s'); rewrite /well_formed ff' st' /=.
case hrE: (home_rot s') => [hr|] //; case hpE: (home_pos s') => [hp|] // _.
rewrite (target_pose_idle _ st' hrE hpE) => -[posE quatE].
by exists s', c', action, hr, hp; split=> //; rewrite -hrE -hpE.
Qed.

(** From HOMED_IDLE, an idle tick, an engage tick, a disengage tick and
    an idle tick, whatever the controller poses are. *)
Lemma round_trip_run idle1 eng dis idle2 s c hr hp :
  well_formed s -> is_first_frame s = false -> start_teleop s = false ->
  home_rot s = Some hr -> home_pos s = Some hp ->
  ~~ right_a idle1 && ~~ right_b idle1 ->
  right_a eng && ~~ right_b eng ->
  right_b dis ->
  ~~ right_a idle2 && ~~ right_b idle2 ->
  let robot_state := robot_states feeds (robot_reads c) in
  let hr' := quat2mat (FrankaState.quat robot_state) in
  let hp' := FrankaState.pos robot_state in
  let relative_affine :=
    get_relative_affine K (right_affine eng) (right_affine eng) in
  exists s' c' before engaged disengaged after,
  [/\ run [:: Some idle1; Some eng; Some dis; Some idle2] s c = Returned s' c'
      /\ commanded c'
         = commanded c ++ [:: before; engaged; disengaged; after],
      FrankaAction.pos before = hp /\ FrankaAction.quat before = mat2quat hr,
      FrankaAction.pos engaged
      = np_clip (hp + trans_block relative_affine) MIN MAX
      /\ FrankaAction.quat engaged
         = mat2quat (hr *m rot_block relative_affine),
      [/\ start_teleop s' = false, init_affine s' = None,
          home_rot s' = Some hr' & home_pos s' = Some hp']
    & [/\ FrankaAction.pos disengaged = hp',
          FrankaAction.quat disengaged = mat2quat hr',
          FrankaAction.pos after = hp'
        & FrankaAction.quat after = mat2quat hr']].
Proof.
move=> wf_s ff st hrE hpE /andP[/negbTE a1 /negbTE b1] /andP[a2 /negbTE b2].
move=> b3 /andP[/negbTE a4 /negbTE b4] /=.
(* the tick before the engagement *)
have eng1 : engaged_on idle1 s = false by rewrite /engaged_on a1 st.
have [s1 [c1 [act1 [hr1 [hp1 [-> [wf1 ff1 st1 _] [hr1E hp1E]]]]]]] :=
  idle_tick c wf_s eng1.
rewrite b1 ff hrE hpE /= addn0 addn0 hr1E hp1E => -[<- <-] rd1 [cmd1 pos1 quat1].
(* the engage tick *)
have [s2 [c2 [act2 [-> [wf2 ff2 st2 _] [ia2 rd2 hm2] [cmd2 _ _] [R2]]]]] :=
  tick_spec eng c1 wf1.
move: st2 ia2 rd2 hm2; rewrite /engaged_on /relative_affine_of a2 b2 ff1 /=.
rewrite !addn0 rd1 hr1E hp1E => st2 ia2 rd2 hm2; rewrite st2 ia2 => -[<-].
case: hm2 => hr2E hp2E; rewrite (target_pose_engaged _ st2 hr2E hp2E).
move=> [pos2 quat2].
(* the disengage tick *)
have eng3 : engaged_on dis s2 = false by rewrite /engaged_on b3 andbF.
have [s3 [c3 [act3 [hr3 [hp3 [-> [wf3 ff3 st3 ia3] [hr3E hp3E]]]]]]] :=
  idle_tick c2 wf2 eng3.
rewrite b3 ff2 /= addn0 addn1 rd2 /last_robot_state => hm3 rd3.
move=> [cmd3 pos3 quat3].
move: hm3; rewrite hr3E hp3E rd3 /= => -[hr3eq hp3eq].
rewrite b3 in ia3.
(* the tick after it *)
have eng4 : engaged_on idle2 s3 = false by rewrite /engaged_on a4 st3.
have [s4 [c4 [act4 [hr4 [hp4 [-> [wf4 ff4 st4 ia4] [hr4E hp4E]]]]]]] :=
  idle_tick c3 wf3 eng4.
rewrite b4 ff3 /= !addn0 hr4E hp4E hr3E hp3E => -[hr43 hp43] _ [cmd4 pos4 quat4].
rewrite a4 b4 ia3 in ia4.
exists s4, c4, act1, act2, act3, act4; split.
- by rewrite cmd4 cmd3 cmd2 cmd1 -!cats1 -!catA.
- by [].
- by [].
- by rewrite hr4E hp4E hr43 hp43 hr3eq hp3eq.
- by rewrite pos3 quat3 pos4 quat4 hr43 hp43 hr3eq hp3eq.
Qed.

(** C8, as the code has it: from HOMED_IDLE, an idle tick, an engage tick,
    a disengage tick and an idle tick, whatever the controller poses.  The
    tick before the engagement commands the home pose.  The disengage tick
    reads the robot state and takes the home pose from it; that tick and
    the tick after it command the pose so read.  The command after the
    disengagement is the command before the engagement exactly when the
    robot reports, at the disengage tick, the position it was homed at and
    an orientation that gives the same quaternion.  The engage tick, when
    the controller pose and the alignment constants are invertible,
    commands the home rotation and the home position clamped into the
    workspace. *)
Theorem engage_disengage_round_trip idle1 eng dis idle2 s c hr hp :
  well_formed s -> is_first_frame s = false -> start_teleop s = false ->
  home_rot s = Some hr -> home_pos s = Some hp ->
  ~~ right_a idle1 && ~~ right_b idle1 ->
  right_a eng && ~~ right_b eng ->
  right_b dis ->
  ~~ right_a idle2 && ~~ right_b idle2 ->
  let robot_state := robot_states feeds (robot_reads c) in
  let hr' := quat2mat (FrankaState.quat robot_state) in
  let hp' := FrankaState.pos robot_state in
  exists s' c' before engaged disengaged after,
  [/\ run [:: Some idle1; Some eng; Some dis; Some idle2] s c = Returned s' c'
      /\ commanded c'
         = commanded c ++ [:: before; engaged; disengaged; after],
      FrankaAction.pos before = hp /\ FrankaAction.quat before = mat2quat hr,
      [/\ [/\ start_teleop s' = false, init_affine s' = None,
              home_rot s' = Some hr' & home_pos s' = Some hp'],
          FrankaAction.pos disengaged = hp'
          /\ FrankaAction.quat disengaged = mat2quat hr'
        & FrankaAction.pos after = hp'
          /\ FrankaAction.quat after = mat2quat hr'],
      (FrankaAction.pos after = FrankaAction.pos before
       /\ FrankaAction.quat after = FrankaAction.quat before)
      <-> (hp' = hp /\ mat2quat hr' = mat2quat hr)
    & H_R_V K \in unitmx -> H_R_V_star K \in unitmx ->
      right_affine eng \in unitmx ->
      FrankaAction.pos engaged = np_clip hp MIN MAX
      /\ FrankaAction.quat engaged = mat2quat hr].
Proof.
move=> wf_s ff st hrE hpE f1 f2 f3 f4 /=.
have [s' [c' [act1 [act2 [act3 [act4 [runE [p1 q1] [p2 q2] home']]]]]]] :=
  round_trip_run c wf_s ff st hrE hpE f1 f2 f3 f4.
move=> [p3 q3 p4 q4].
exists s', c', act1, act2, act3, act4; split=> //.
- by rewrite p1 q1 p4 q4.
- move=> Hu Hsu Au; rewrite p2 q2 get_relative_affine_self //.
  by rewrite rot_block_id trans_block_id addr0 mulmx1.
Qed.

End Teleop.

(** ** The observation assembler *)

Section Env.
Variable F : realFieldType.
Variable feed : EnvFeed F.





(** Without a robot, [__init__] never creates [n_sensors] and
    [sensor_dim]. *)
Lemma init_without_robot num_cameras w h reskin params :
  let ty := if reskin then Some "reskin"%string else None in
  FrankaEnv_init feed num_cameras w h false ty params =
  Ok tt (MkEnv w h 3 8 7 false ty params 3 0
           None None None None None None None None).
Proof. by case: reskin. Qed.

(** C4, evaluated: an environment built without a robot, with or without
    the tactile sensor, does not return a record from [reset]: the call
    raises [AttributeError] at [self.n_sensors]. *)
Theorem reset_without_robot_raises num_cameras w h reskin params :
  let ty := if reskin then Some "reskin"%string else None in
  exists env,
    FrankaEnv_init feed num_cameras w h false ty params = Ok tt env
    /\ reset feed env = Raise _ AttributeError env.
Proof. by rewrite /= init_without_robot; eexists; split. Qed.

(** C5, evaluated: the baselining at construction never completes.  With
    a robot and the tactile sensor, [__init__] calls [_get_reskin_state] at
    line 81, before line 83 creates the request socket on which the
    baseline samples are asked for, and the call raises [AttributeError]
    at line 206 ([KeyError] at line 202 when the sensor state lacks its
    values; [TypeError] or [KeyError] at line 76 when [sensor_params] does
    not give [subtract_sensor_baseline]).  No baseline is computed and no
    reading is stored or returned: [__init__] yields no object with the
    tactile sensor, on which a first reading after a baselining could be
    taken. *)
Theorem baselining_at_construction_raises num_cameras w h params :
  exists env,
  [/\ FrankaEnv_init feed num_cameras w h true (Some "reskin"%string) params
      = Raise unit
          (match params with
           | None => TypeError
           | Some None => KeyError
           | Some (Some _) =>
               if sensor_state feed is Some _ then AttributeError
               else KeyError
           end) env,
      sensor_baseline env = None
    & sensor_prev_state env = Some None].
Proof.
rewrite /FrankaEnv_init /get_reskin_state_with /bind /modify /orelse /raise.
rewrite /lookup_subtract /ret /=.
case: params => [[b|]|] /=; try by eexists; split.
by case: (sensor_state feed) => [raw|] /=; eexists; split.
Qed.

(** Without a robot [step] has no request socket to send on. *)
Lemma step_without_robot env a abs_action :
  use_robot env = false ->
  step feed (a :: abs_action) env = Raise _ AttributeError env.
Proof. by rewrite /step /bind /ret => ->. Qed.

End Env.

Lemma size_features (F : realFieldType) (st : FrankaState.t F) :
  size (features st) = 8%N.
Proof. by rewrite /features !size_cat !size_map -!enumT !size_enum_ord. Qed.

(** The image channels are named differently in the two modes: with a
    robot, [pixels0], [pixels1], ...; without, a single [pixels]. *)
Lemma pixels_channel_names :
  (exists obs env',
     reset tactile_feed camera_env = Ok obs env'
     /\ channels_of obs =
        [:: ("features"%string, [:: 8%N]); ("proprioceptive"%string, [:: 8%N]);
            ("pixels0"%string, [:: 480%N; 640%N; 3%N])])
  /\ (exists obs env',
       reset tactile_feed patched_dry_env = Ok obs env'
       /\ channels_of obs =
          [:: ("features"%string, [:: 8%N]);
              ("proprioceptive"%string, [:: 8%N]);
              ("sensor0"%string, [:: 15%N]);
              ("sensor0_diffs"%string, [:: 15%N]);
              ("sensor1"%string, [:: 15%N]);
              ("sensor1_diffs"%string, [:: 15%N]);
              ("pixels"%string, [:: 480%N; 640%N; 3%N])]).
Proof.
split; eexists _, _;
  (split; first by rewrite /reset /observe /bind /getattr /modify /ret /=;
                   reflexivity).
  by rewrite /channels_of /= size_features.
by [].
Qed.


(** ** More on the retargeting function *)

Section RetargetingMore.
Variable F : realFieldType.
Variable K : constants F.
Local Notation get_relative_affine_unit := (@get_relative_affine_unit F K).

(** X1: the result depends on the two poses through
    [inverse(init_affine) @ current_affine] only: moving both poses by the
    same invertible transform [G] of the tracking frame changes nothing. *)
Theorem get_relative_affine_frame_invariant (G A B : 'M[F]_4) :
  G \in unitmx -> A \in unitmx ->
  get_relative_affine K (G *m A) (G *m B) = get_relative_affine K A B.
Proof.
move=> Gu Au; have GAu : G *m A \in unitmx by rewrite unitmx_mul Gu.
rewrite /get_relative_affine (pinv_unit GAu) (pinv_unit Au).
suff -> : invmx (G *m A) *m (G *m B) = invmx A *m B by [].
apply: (can_inj (mulKmx GAu)).
by rewrite mulKVmx // -mulmxA mulKVmx.
Qed.

(** Products and inverses of homogeneous matrices. *)
Lemma homogeneous_mul (R R' : 'M[F]_3) (t t' : 'cV[F]_3) :
  homogeneous R t *m homogeneous R' t' = homogeneous (R *m R') (R *m t' + t).
Proof.
rewrite /homogeneous; apply: etrans (@mulmx_block _ 3 1 3 1 3 1 _ _ _ _ _ _ _ _) _.
by rewrite ?mul0mx ?mulmx0 ?mulmx1 ?mul1mx ?addr0 ?add0r.
Qed.

Lemma homogeneous_unit (R : 'M[F]_3) (t : 'cV[F]_3) :
  R \in unitmx -> homogeneous R t \in unitmx.
Proof.
move=> Ru; have detE : \det (homogeneous R t) = \det R * \det (1 : 'M[F]_1).
  exact: (@det_ublock _ 3 1 R t 1).
by rewrite unitmxE detE det1 mulr1 -unitmxE.
Qed.

Lemma homogeneous_inv (R : 'M[F]_3) (t : 'cV[F]_3) :
  R \in unitmx ->
  invmx (homogeneous R t) = homogeneous (invmx R) (- (invmx R *m t)).
Proof.
move=> Ru; apply: (can_inj (mulKmx (homogeneous_unit t Ru))).
rewrite mulmxV ?homogeneous_unit // homogeneous_mul mulmxV // mulmxN.
by rewrite mulKVmx // addNr homogeneous_id.
Qed.

(** X2: what the function computes on rigid poses.  When the two alignment
    constants are rotations [Rv] and [Rs] without translation, the initial
    pose is [(Ri, ti)] and the current pose [(Rc, tc)], the relative
    rotation is [Rv^-1 (Ri^-1 Rc) Rv] and the relative translation is
    [Rs^-1 Ri^-1 (tc - ti)]. *)
Theorem get_relative_affine_rigid (Rv Rs Ri Rc : 'M[F]_3) (ti tc : 'cV[F]_3) :
  H_R_V K = homogeneous Rv 0 -> H_R_V_star K = homogeneous Rs 0 ->
  Rv \in unitmx -> Rs \in unitmx -> Ri \in unitmx ->
  get_relative_affine K (homogeneous Ri ti) (homogeneous Rc tc) =
  homogeneous (invmx Rv *m (invmx Ri *m Rc) *m Rv)
    (invmx Rs *m (invmx Ri *m (tc - ti))).
Proof.
move=> HvE HsE Rvu Rsu Riu.
rewrite get_relative_affine_unit ?HvE ?HsE ?homogeneous_unit //.
rewrite !homogeneous_inv // !homogeneous_mul.
rewrite rot_block_homogeneous trans_block_homogeneous.
by rewrite !mulmx0 subr0 add0r -mulmxBr.
Qed.

End RetargetingMore.

(** * Further properties *)

(** ** The teleoperation state machine along runs *)

Section TeleopMore.
Variable F : realFieldType.
Variable K : constants F.
Variable quat2mat : 'cV[F]_4 -> 'M[F]_3.
Variable mat2quat : 'M[F]_3 -> 'cV[F]_4.
Variable feeds : Feeds F.

Local Notation tick := (_apply_retargeted_angles K quat2mat mat2quat feeds).
Local Notation run := (stream K quat2mat mat2quat feeds).
Local Notation MIN := (ROBOT_WORKSPACE_MIN K).
Local Notation MAX := (ROBOT_WORKSPACE_MAX K).
Local Notation tick_spec := (@tick_spec F K quat2mat mat2quat feeds).
Local Notation update_gripperE := (@update_gripperE F K).
Local Notation target_pose_idle := (@target_pose_idle F K mat2quat).
Local Notation target_pose_engaged := (@target_pose_engaged F K mat2quat).
Local Notation get_relative_affine_self := (@get_relative_affine_self F K).

(** The whole log of the socket over one tick: the reset action on the
    first frame, then the target action. *)
Lemma tick_sent cs s c : well_formed s ->
  exists s' c' action,
  [/\ tick (Some cs) s c = Returned s' c',
      sent c' =
        sent c
        ++ (if is_first_frame s
            then [:: FrankaAction.Build 0 0 (GRIPPER_OPEN K) true
                       (clock feeds (clock_reads c))]
            else [::])
        ++ [:: action]
    & FrankaAction.reset action = false].
Proof.
rewrite /well_formed /_apply_retargeted_angles /reset_robot /engage /disengage
  /relative_affine_of /target_pose.
case: s => cst [] g [] [ia|] [hr|] [hp|] //=; case: cs => [[] [] P it ht] /= _;
  rewrite !update_gripperE /=; eexists _, _, _;
  by split; [reflexivity | rewrite /= -?cats1 -?catA /= | ].
Qed.

(** A run over samples from a well-formed state returns, and the state it
    reaches is well-formed. *)
Lemma stream_log samples s c : well_formed s ->
  exists s' c' targets,
  [/\ run [seq Some cs | cs <- samples] s c = Returned s' c',
      well_formed s',
      is_first_frame s' = is_first_frame s && nilp samples,
      size targets = size samples /\ all (fun a => ~~ FrankaAction.reset a) targets
    & sent c' =
        sent c
        ++ (if is_first_frame s && ~~ nilp samples
            then [:: FrankaAction.Build 0 0 (GRIPPER_OPEN K) true
                       (clock feeds (clock_reads c))]
            else [::])
        ++ targets].
Proof.
elim: samples s c => [|cs samples IH] s c wf_s /=.
  by exists s, c, [::]; split=> //; rewrite ?andbT ?andbF ?cats0.
have [s1 [c1 [action [tickE sentE rst]]]] := tick_sent cs c wf_s.
have [s1' [c1' [a' [tickE' [wf1 ff1 _ _] _ _ _]]]] := tick_spec cs c wf_s.
move: tickE'; rewrite tickE => -[? ?]; subst s1' c1'.
have [s' [c' [targets [-> wf' ff' [sz nrst] sentE']]]] :=
  IH s1 c1 wf1.
exists s', c', (action :: targets); split=> //=.
- by rewrite ff' ff1 andbF.
- by rewrite sz rst.
- by rewrite sentE' ff1 /= sentE andbT -!catA.
Qed.

(** X3: a fresh operator never raises on a stream of samples.  It sends
    the reset action exactly once, before anything else, and then one
    target action per sample, none of them with the reset flag; from the
    first tick on it is past its first frame and well-formed. *)
Theorem fresh_operator_run cs samples :
  exists s' c' targets,
  [/\ run [seq Some x | x <- cs :: samples] (FrankaOperator_init K)
        (Channels_init F) = Returned s' c',
      well_formed s' /\ is_first_frame s' = false,
      sent c' =
        FrankaAction.Build 0 0 (GRIPPER_OPEN K) true (clock feeds 0) :: targets,
      size targets = (size samples).+1
    & all (fun a => ~~ FrankaAction.reset a) targets].
Proof.
have [s' [c' [targets [runE wf' ff' [sz nrst] sentE]]]] :=
  stream_log (cs :: samples) (Channels_init F) (well_formed_init K).
by exists s', c', targets; split.
Qed.

(** X4: the robot state is read once for the reset handshake and once for
    every sample with the disengage flag, and at no other time. *)
Theorem robot_state_reads samples s c : well_formed s ->
  exists s' c',
    run [seq Some cs | cs <- samples] s c = Returned s' c'
    /\ robot_reads c' =
       (robot_reads c + (is_first_frame s && ~~ nilp samples)
        + count (@right_b F) samples)%N.
Proof.
elim: samples s c => [|cs samples IH] s c wf_s /=.
  by exists s, c; rewrite andbF !addn0.
have [s1 [c1 [a [-> [wf1 ff1 _ _] [_ rd _] _ _]]]] := tick_spec cs c wf_s.
have [s' [c' [runE rdE]]] := IH s1 c1 wf1.
exists s', c'; split=> //.
by rewrite rdE rd ff1 andbT /= addn0 -!addnA.
Qed.

(** X5: a missing sample ends the stream: the ticks before it have each
    sent their target action, the tick that finds [None] raises
    [AttributeError] without sending one, and the samples after it are
    never looked at. *)
Theorem stream_stops_at_missing_sample samples rest s c :
  well_formed s ->
  exists s' c' targets,
  [/\ run ([seq Some cs | cs <- samples] ++ None :: rest) s c
      = Raised AttributeError s' c',
      commanded c' = commanded c ++ targets
    & size targets = size samples].
Proof.
elim: samples s c => [|cs samples IH] s c wf_s /=.
  rewrite /_apply_retargeted_angles /reset_robot /commanded.
  case: (is_first_frame s) => /=; eexists _, _, [::];
    by split; rewrite ?cats0 //= filter_rcons.
have [s1 [c1 [action [-> [wf1 _ _ _] _ [cmd _ _] _]]]] := tick_spec cs c wf_s.
have [s' [c' [targets [-> cmd' sz]]]] := IH s1 c1 wf1.
exists s', c', (action :: targets); split=> //=; last by rewrite sz.
by rewrite cmd' cmd -cats1 -catA.
Qed.

(** X6: an engaged tick whose sample has the engage flag set, or whose
    controller pose is the one captured at engagement, commands the home
    rotation and the home position clamped into the workspace.  In
    particular, while the engage button stays pressed the initial pose is
    captured anew on every tick and the robot is held at home. *)
Theorem engaged_at_rest cs s c :
  well_formed s -> engaged_on cs s ->
  right_a cs \/ init_affine s = Some (right_affine cs) ->
  H_R_V K \in unitmx -> H_R_V_star K \in unitmx ->
  right_affine cs \in unitmx ->
  exists s' c' action hp hr,
  [/\ tick (Some cs) s c = Returned s' c',
      init_affine s' = Some (right_affine cs),
      home_pos s' = Some hp /\ home_rot s' = Some hr,
      commanded c' = rcons (commanded c) action
    & FrankaAction.pos action = np_clip hp MIN MAX
      /\ FrankaAction.quat action = mat2quat hr].
Proof.
move=> wf_s eng held Hu Hsu Pu.
have [s' [c' [action [tickE [wf_s' ff' st' _] [ia _ _] [cmd _ _] [R RE tgt]]]]] :=
  tick_spec cs c wf_s.
have {}ia : init_affine s' = Some (right_affine cs).
  move: eng ia; rewrite /engaged_on => /andP[_ /negbTE ->].
  by case: held => [->|->] //; case: ifP.
rewrite eng in st'; move: wf_s' RE tgt; rewrite /well_formed /relative_affine_of.
rewrite st' ff' ia /=.
case hrE: (home_rot s') => [hr|] //=; case hpE: (home_pos s') => [hp|] //= _.
move=> [<-]; rewrite (target_pose_engaged _ st' hrE hpE).
rewrite get_relative_affine_self // rot_block_id trans_block_id addr0 mulmx1.
by move=> [posE quatE]; exists s', c', action, hp, hr.
Qed.

(** One axis of the clamp, applied twice. *)
Lemma clamp_twice (x lo hi : F) :
  Num.min hi (Num.max (Num.min hi (Num.max x lo)) lo)
  = Num.min hi (Num.max x lo).
Proof.
have [lohi|hilo] := leP lo hi.
  have loy : lo <= Num.min hi (Num.max x lo) by rewrite le_min lohi le_max lexx orbT.
  by rewrite (max_idPl loy); apply/min_idPr; rewrite ge_min lexx.
have -> : Num.min hi (Num.max x lo) = hi.
  by apply/min_idPl; rewrite le_max (ltW hilo) orbT.
by rewrite (max_idPr (ltW hilo)); apply/min_idPl/ltW.
Qed.

(** The clamp, applied twice, and on a position inside the box. *)
Lemma np_clip_twice (y : 'cV[F]_3) :
  np_clip (np_clip y MIN MAX) MIN MAX = np_clip y MIN MAX.
Proof. by apply/colP=> i; rewrite !mxE clamp_twice. Qed.

Lemma np_clip_inside (x : 'cV[F]_3) :
  (forall i, MIN i 0 <= x i 0 <= MAX i 0) -> np_clip x MIN MAX = x.
Proof.
move=> inbox; apply/colP=> i; rewrite !mxE.
have /andP[lo hi] := inbox i.
by rewrite (max_idPl lo); apply/min_idPr.
Qed.

(** X7: the workspace clamp within the engaged tick.  Whatever the two
    bounds are (even for an ill-formed box), clamping the position that an
    engaged tick commands once more leaves it as it is; and when the
    target [home_pos + relative translation] lies inside the box, the
    clamp is idle and the tick commands that target itself. *)
Theorem workspace_clamp_fixed cs s c :
  well_formed s -> engaged_on cs s ->
  exists s' c' action hp A,
  [/\ tick (Some cs) s c = Returned s' c',
      home_pos s' = Some hp /\ init_affine s' = Some A,
      commanded c' = rcons (commanded c) action,
      np_clip (FrankaAction.pos action) MIN MAX = FrankaAction.pos action
    & let target_pos :=
        hp + trans_block (get_relative_affine K A (right_affine cs)) in
      (forall i, MIN i 0 <= target_pos i 0 <= MAX i 0) ->
      FrankaAction.pos action = target_pos].
Proof.
move=> wf_s eng.
have [s' [c' [action [tickE [wf_s' ff' st' _] _ [cmd _ _] [R RE tgt]]]]] :=
  tick_spec cs c wf_s.
rewrite eng in st'; move: wf_s' RE tgt; rewrite /well_formed /relative_affine_of.
rewrite st' ff' /=; case iaE: (init_affine s') => [A|] //=.
case hrE: (home_rot s') => [hr|] //=; case hpE: (home_pos s') => [hp|] //= _.
move=> [<-]; rewrite (target_pose_engaged _ st' hrE hpE) => -[posE quatE].
exists s', c', action, hp, A; split=> //=; rewrite -posE.
  exact: np_clip_twice.
exact: np_clip_inside.
Qed.

(** The pose that a target action carries. *)
Local Notation pose_of a := (FrankaAction.pos a, FrankaAction.quat a).

(** A run of samples without flags, after the first frame: engagement,
    initial affine and home pose stay as they are, the robot state is not
    read, and every tick commands the target of its own sample. *)
Lemma flagless_run samples s c hr hp :
  well_formed s -> is_first_frame s = false ->
  home_rot s = Some hr -> home_pos s = Some hp ->
  all (fun cs => ~~ right_a cs && ~~ right_b cs) samples ->
  exists s' c',
  [/\ run [seq Some cs | cs <- samples] s c = Returned s' c',
      [/\ start_teleop s' = start_teleop s, init_affine s' = init_affine s,
          home_rot s' = Some hr & home_pos s' = Some hp],
      robot_reads c' = robot_reads c
    & [seq Some (pose_of a) | a <- commanded c'] =
      [seq Some (pose_of a) | a <- commanded c]
      ++ [seq (if relative_affine_of K cs s is Some relative_affine
               then target_pose K mat2quat relative_affine s else None)
         | cs <- samples]].
Proof.
elim: samples s c => [|cs samples IH] s c wf_s ff hrE hpE /=.
  by move=> _; exists s, c; split; rewrite ?cats0.
case/andP=> /andP[/negbTE a /negbTE b] flagless.
have [s1 [c1 [act [-> [wf1 ff1 st1 _] [ia1 rd1 hm1] [cmd _ _] [R RE tgt]]]]] :=
  tick_spec cs c wf_s.
move: st1 ia1 rd1 hm1; rewrite /engaged_on a b ff hrE hpE /= andbT !addn0.
move=> st1 ia1 rd1 [hr1E hp1E].
have [s' [c' [-> [st' ia' hr' hp'] rd' cmd']]] :=
  IH s1 c1 wf1 ff1 hr1E hp1E flagless.
exists s', c'; split; rewrite ?st' ?ia' ?rd' //.
rewrite cmd' cmd map_rcons -cats1 -catA /=; congr (_ ++ (_ :: _)).
  have -> : relative_affine_of K cs s = relative_affine_of K cs s1.
    by rewrite /relative_affine_of st1 ia1.
  rewrite RE -tgt /target_pose st1 hr1E hp1E hrE hpE.
  by [].
apply: eq_map => x; rewrite /relative_affine_of /target_pose.
by rewrite st1 ia1 hr1E hp1E hrE hpE.
Qed.

(** X8: retargeting is absolute, not incremental.  Along a run of
    samples without flags in the engaged state, the initial affine and the
    home pose stay fixed, the robot state is never read, and each tick
    commands the pose computed from its own controller pose alone:
    [clip(home_pos + translation)], [home_rot @ rotation] of
    [get_relative_affine(init_affine, pose)]. *)
Theorem engaged_run samples s c hr hp A :
  well_formed s -> is_first_frame s = false ->
  home_rot s = Some hr -> home_pos s = Some hp ->
  start_teleop s -> init_affine s = Some A ->
  all (fun cs => ~~ right_a cs && ~~ right_b cs) samples ->
  exists s' c',
  [/\ run [seq Some cs | cs <- samples] s c = Returned s' c',
      [/\ start_teleop s', init_affine s' = Some A,
          home_rot s' = Some hr & home_pos s' = Some hp],
      robot_reads c' = robot_reads c
    & [seq pose_of a | a <- commanded c'] =
      [seq pose_of a | a <- commanded c]
      ++ [seq (let relative_affine :=
                 get_relative_affine K A (right_affine cs) in
               (np_clip (hp + trans_block relative_affine) MIN MAX,
                mat2quat (hr *m rot_block relative_affine)))
         | cs <- samples]].
Proof.
move=> wf_s ff hrE hpE st iaE flagless.
have [s' [c' [runE [st' ia' hr' hp'] rd cmd]]] :=
  flagless_run c wf_s ff hrE hpE flagless.
exists s', c'; split; rewrite ?st' ?ia' //.
apply: (inj_map (@Some_inj _)); rewrite map_cat -!map_comp.
rewrite [LHS]cmd; congr (_ ++ _); apply: eq_map => cs /=.
by rewrite /relative_affine_of /target_pose st iaE hrE hpE.
Qed.

(** X9: while teleoperation is off and no flag arrives, every tick
    commands the home pose captured last; the robot state is not read
    again, so the command does not follow a robot that drifts. *)
Theorem idle_run samples s c hr hp :
  well_formed s -> is_first_frame s = false ->
  home_rot s = Some hr -> home_pos s = Some hp ->
  start_teleop s = false ->
  all (fun cs => ~~ right_a cs && ~~ right_b cs) samples ->
  exists s' c',
  [/\ run [seq Some cs | cs <- samples] s c = Returned s' c',
      [/\ start_teleop s' = false, init_affine s' = init_affine s,
          home_rot s' = Some hr & home_pos s' = Some hp],
      robot_reads c' = robot_reads c
    & [seq pose_of a | a <- commanded c'] =
      [seq pose_of a | a <- commanded c]
      ++ nseq (size samples) (hp, mat2quat hr)].
Proof.
move=> wf_s ff hrE hpE st flagless.
have [s' [c' [runE [st' ia' hr' hp'] rd cmd]]] :=
  flagless_run c wf_s ff hrE hpE flagless.
exists s', c'; split; rewrite ?st' ?ia' //.
apply: (inj_map (@Some_inj _)); rewrite map_cat -!map_comp.
rewrite [LHS]cmd; congr (_ ++ _).
rewrite /relative_affine_of /target_pose st hrE hpE /=.
by elim: (samples) => //= _ l ->.
Qed.

End TeleopMore.

(** ** The observation assembler, further *)

(** Splits the goal along the first option or boolean that is matched on. *)
Ltac split_match :=
  match goal with
  | |- context [match ?x with Some _ => _ | None => _ end] =>
      is_var x; destruct x
  | |- context [match ?f ?a with Some _ => _ | None => _ end] =>
      destruct (f a)
  | |- context [match ?f ?a ?b with Some _ => _ | None => _ end] =>
      destruct (f a b)
  | |- context [if ?b then _ else _] => is_var b; destruct b
  | |- context [match ?x with O => _ | S _ => _ end] => is_var x; destruct x
  end.

(** ** Strings and dictionaries *)

Lemma str_inj : injective str.
Proof.
move=> i j /(congr1 NilEmpty.uint_of_string); rewrite /str !NilEmpty.usu.
by case=> /(congr1 Nat.of_uint); rewrite !DecimalNat.Unsigned.of_to.
Qed.

Lemma append_inj (p a b : string) :
  String.append p a = String.append p b -> a = b.
Proof. by elim: p => //= ch p IH [/IH]. Qed.

Lemma eqb_append (p a b : string) :
  String.eqb (String.append p a) (String.append p b) = String.eqb a b.
Proof. by elim: p => //= ch p ->; rewrite Ascii.eqb_refl. Qed.

Lemma eqb_str (i j : nat) : String.eqb (str i) (str j) = (i == j).
Proof.
apply/idP/eqP => [/String.eqb_eq /str_inj //|->].
exact: String.eqb_refl.
Qed.

Section Dict.
Variable V : Type.
Implicit Types (d : dict V) (k : string) (v : V).

Lemma dict_get_set k k' v d :
  dict_get k (dict_set k' v d) =
  if String.eqb k' k then Some v else dict_get k d.
Proof.
elim: d => [|[k0 v0] d IH] /=; first by [].
case k0k': (String.eqb k0 k') => /=.
  by move/String.eqb_eq: k0k' => ->; case: ifP.
rewrite IH; case k0k: (String.eqb k0 k) => //.
case k'k: (String.eqb k' k) => //.
by move/String.eqb_eq: k0k k'k k0k' => -> /String.eqb_eq ->; rewrite String.eqb_refl.
Qed.

End Dict.

Section Pixels.
Variable F : realFieldType.
Variables (w h : nat) (prefix : string).

Local Notation put := (fun (obs : dict (ndarray F)) (i_image : nat * image) =>
  dict_set (String.append prefix (str i_image.1))
    (pixels_of F (cv2_resize i_image.2 w h)) obs).

Lemma foldl_pixels_other k obs m (images : seq image) :
  (forall j, String.eqb (String.append prefix (str j)) k = false) ->
  dict_get k (foldl put obs (zip (iota m (size images)) images))
  = dict_get k obs.
Proof.
move=> other; elim: images obs m => [|im images IH] obs m //=.
by rewrite IH dict_get_set other.
Qed.

Lemma foldl_pixels_get i obs m (images : seq image) im0 :
  dict_get (String.append prefix (str i))
    (foldl put obs (zip (iota m (size images)) images))
  = if (m <= i < m + size images)%N
    then Some (pixels_of F (cv2_resize (nth im0 images (i - m)) w h))
    else dict_get (String.append prefix (str i)) obs.
Proof.
elim: images obs m => [|im images IH] obs m /=.
  by rewrite addn0; case: leqP => // mi; rewrite ltnNge mi.
rewrite IH dict_get_set eqb_append eqb_str addSnnS.
case: (ltngtP m i) => [mi|im_|<-] //=.
- by rewrite -[(i - m)%N]prednK ?subn_gt0 // -subnS.
- by rewrite addnS ltnS leq_addr subnn.
Qed.

End Pixels.

Section EnvMore.
Variable F : realFieldType.
Variable feed : EnvFeed F.

(** The record before the image channels are added. *)
Local Notation base_record :=
  [:: ("features"%string, Vector (features (state_reply feed)));
      ("proprioceptive"%string, Vector (features (state_reply feed)))].

Local Notation put_pixels w h := (fun (obs : dict (ndarray F)) (i_image : nat * image) =>
  dict_set (String.append "pixels" (str i_image.1))
    (pixels_of F (cv2_resize i_image.2 w h)) obs).

(** What a tactile reading can do to the object, and when. *)
Lemma get_reskin_state_frame update_baseline env :
  match _get_reskin_state feed update_baseline env with
  | Ok obs env' =>
      (exists prev baseline, env' = with_tactile prev baseline env)
      /\ exists n d v dv, obs = reskin_channels n d v dv
  | Raise e env' =>
      (exists prev baseline, env' = with_tactile prev baseline env)
      /\ (e = KeyError -> env' = env)
  end.
Proof.
rewrite /_get_reskin_state /get_reskin_state_with; set replies := all_some _; move: replies => replies.
rewrite /bind /orelse /getattr /modify /ret /raise.
case: env => w h ch fd ad ur st sp nc rw fs ci isub ns sd ps sub bl.
repeat (rewrite /=; split_match);
  by split; [eexists _, _; reflexivity | by [] || by eexists _, _, _, _].
Qed.

(** [observe], stage by stage. *)
Lemma observe_spec update_baseline env n :
  image_subscribers env = Some n ->
  let images := [seq frames feed i | i <- iota 0 n] in
  let env1 := set_curr_images images (set_franka_state (state_reply feed) env) in
  let finish obs env2 :=
    Ok (foldl (put_pixels (width env) (height env)) obs
          (zip (iota 0 (size images)) images)) env2 in
  observe feed update_baseline env =
  if is_reskin (sensor_type env) then
    match _get_reskin_state feed update_baseline env1 with
    | Ok reskin_state env2 =>
        finish (dict_update base_record reskin_state) env2
    | Raise KeyError env2 => finish base_record env2
    | Raise e env2 => Raise _ e env2
    end
  else finish base_record env1.
Proof.
move=> subsE /=; rewrite /observe /bind /getattr /modify /ret /except_KeyError /=.
rewrite subsE /=; case: ifP => // _.
have := get_reskin_state_frame update_baseline
  (set_curr_images [seq frames feed i | i <- iota 0 n]
     (set_franka_state (state_reply feed) env)).
case: (_get_reskin_state _ _ _) => [rs env2|e env2] [[prev [bl ->]] _] //.
by case: e.
Qed.

Lemma size_frames n : size [seq frames feed i | i <- iota 0 n] = n.
Proof. by rewrite size_map size_iota. Qed.

(** Lookups in a record that holds the robot channels and the image
    channels only. *)
Lemma camera_lookups w h n :
  let images := [seq frames feed i | i <- iota 0 n] in
  let obs := foldl (put_pixels w h) base_record
               (zip (iota 0 (size images)) images) in
  [/\ dict_get "features" obs = Some (Vector (features (state_reply feed))),
      dict_get "proprioceptive" obs
      = Some (Vector (features (state_reply feed))),
      forall i,
        dict_get (String.append "pixels" (str i)) obs =
        if (i < n)%N then Some (Pixels F h w (im_depth (frames feed i)))
        else None
    & forall suffix, dict_get (String.append "sensor" suffix) obs = None].
Proof.
split=> [| |i|suffix]; try by rewrite foldl_pixels_other.
rewrite (@foldl_pixels_get F w h "pixels" i _ 0 _ (Image 0 0 0)).
rewrite size_frames add0n /=.
case: ltnP => // ilt.
by rewrite subn0 (nth_map 0%N) ?size_iota // nth_iota.
Qed.

(** X10: with a robot and without the tactile sensor, [reset] and [step]
    return the same record and never raise: [features] and
    [proprioceptive] hold the eight values of the robot state, and
    [pixels<i>] holds the frame of camera [i], resized to [height] rows and
    [width] columns, for exactly the cameras [i < num_cameras]; the object
    remembers the robot state and the frames. *)
Theorem camera_record env n a abs_action :
  use_robot env -> image_subscribers env = Some n ->
  is_reskin (sensor_type env) = false ->
  frames_resizable feed (width env) (height env) n ->
  exists obs env',
  [/\ reset feed env = Ok obs env'
      /\ step feed (a :: abs_action) env = Ok (obs, reward env, false) env',
      dict_get "features" obs = Some (Vector (features (state_reply feed)))
      /\ dict_get "proprioceptive" obs
         = Some (Vector (features (state_reply feed))),
      size (features (state_reply feed)) = 8%N,
      forall i,
        dict_get (String.append "pixels" (str i)) obs =
        if (i < n)%N
        then Some (Pixels F (height env) (width env) (im_depth (frames feed i)))
        else None
    & franka_state env' = Some (state_reply feed)
      /\ curr_images env' = Some [seq frames feed i | i <- iota 0 n]].
Proof.
move=> robot subsE noskin _.
have [ft pp px _] := camera_lookups (width env) (height env) n.
eexists _, _; split.
- rewrite /step /reset /bind /ret robot /= !(observe_spec _ subsE) noskin /=.
  by split; reflexivity.
- by split.
- exact: size_features.
- exact: px.
- by split.
Qed.






(** With a robot and the tactile sensor, [__init__] raises. *)
Lemma init_with_reskin_raises num_cameras w h params :
  exists e env,
    FrankaEnv_init feed num_cameras w h true (Some "reskin"%string) params
    = Raise unit e env.
Proof.
rewrite /FrankaEnv_init /get_reskin_state_with /bind /modify /orelse /raise.
rewrite /lookup_subtract /ret /=.
case: params => [[b|]|] /=; try by eexists _, _.
by case: (sensor_state feed) => [raw|] /=; eexists _, _.
Qed.

(** X13: with a robot and the tactile sensor, [__init__] never returns,
    whatever the cameras, the sizes and [sensor_params] are: if nothing
    fails before, the reading that is to populate the first baseline
    raises, for it asks for its samples on the request socket, which
    [__init__] creates only afterwards.  Stated for a reading of two
    values or more (the sensors give thirty). *)
Theorem init_with_tactile_sensor_raises num_cameras w h params :
  (forall raw, sensor_state feed = Some raw -> (1 < size raw)%N) ->
  exists e env,
    FrankaEnv_init feed num_cameras w h true (Some "reskin"%string) params
    = Raise unit e env.
Proof. move=> _; exact: init_with_reskin_raises. Qed.

(** An object that [__init__] has returned holds no images yet. *)
Lemma init_curr_images num_cameras w h robot ty params env :
  FrankaEnv_init feed num_cameras w h robot ty params = Ok tt env ->
  curr_images env = None.
Proof.
case: robot; last first.
  rewrite /FrankaEnv_init /bind /raise /ret.
  by case: ty => [name|] /=; [case: (String.eqb _ _)|] => // -[<-].
case: ty => [name|]; last by rewrite /FrankaEnv_init /= => -[<-].
rewrite /FrankaEnv_init /bind /raise /ret /modify /is_reskin.
case eqn: (String.eqb name "reskin") => //.
move/String.eqb_eq: eqn => -> /=.
have [e [env' E]] := init_with_reskin_raises num_cameras w h params.
by move: E; rewrite /FrankaEnv_init /bind /raise /ret /modify /= => ->.
Qed.

(** X14: [render] on an object fresh from [__init__], whatever the
    arguments of either, fails its assertion. *)
Theorem render_before_reset num_cameras w h robot ty params env mode rw rh :
  FrankaEnv_init feed num_cameras w h robot ty params = Ok tt env ->
  render mode rw rh env = inr (RenderRaised AssertionError).
Proof. by move=> /init_curr_images ciE; rewrite /render ciE. Qed.

(** The images that a [reset] or a [step] with a robot leaves in the
    object. *)
Lemma observe_curr_images update_baseline env n obs env' :
  image_subscribers env = Some n ->
  observe feed update_baseline env = Ok obs env' ->
  curr_images env' = Some [seq frames feed i | i <- iota 0 n].
Proof.
move=> subsE; rewrite (observe_spec _ subsE) /=.
case: ifP => _; last by case=> _ <-.
have := get_reskin_state_frame update_baseline
  (set_curr_images [seq frames feed i | i <- iota 0 n]
     (set_franka_state (state_reply feed) env)).
case: (_get_reskin_state _ _ _) => [rs env2|e env2] [[prev [bl ->]] _].
  by case=> _ <-.
by case: e => // -[_ <-].
Qed.

Lemma sumn_resized_cols (images : seq image) rw rh :
  sumn [seq im_cols x | x <- [seq cv2_resize im rw rh | im <- images]]
  = (rw * size images)%N.
Proof. by elim: images => [|im images IH] /=; rewrite ?muln0 // IH mulnS. Qed.

(** X15: after a [reset] with a robot, [render] in mode ["rgb_array"]
    returns the frames of the cameras side by side: [height] rows,
    [num_cameras * width] columns, when there is at least one camera, the
    frames agree in depth and can be resized; without a camera it raises
    [ValueError], for a size that [cv2.resize] refuses [cv2.error], and in
    any other mode [NotImplementedError]. *)
Theorem render_after_reset env n obs env' rw rh d mode :
  use_robot env -> image_subscribers env = Some n ->
  frames_resizable feed (width env) (height env) n ->
  reset feed env = Ok obs env' ->
  (forall i, (i < n)%N -> im_depth (frames feed i) = d) ->
  [/\ (0 < n)%N -> frames_resizable feed rw rh n ->
      render "rgb_array" rw rh env' = inl (Image rh (rw * n) d),
      n = 0%N ->
      render "rgb_array" rw rh env' = inr (RenderRaised ValueError),
      frames_resizable feed rw rh n = false ->
      render "rgb_array" rw rh env' = inr cv2_error
    & String.eqb mode "rgb_array" = false ->
      render mode rw rh env' = inr NotImplementedError].
Proof.
move=> robot subsE _; rewrite /reset robot.
move=> /(observe_curr_images subsE) ciE depths.
rewrite /render ciE /= all_map -/(frames_resizable feed rw rh n).
split=> [npos ->|n0|->|->] //; last by rewrite n0.
case: n npos depths {subsE ciE} => // n _ depths /=.
rewrite sumn_resized_cols size_map size_iota -mulnS depths //.
have -> // : all (fun im' => (im_rows im' == rh) && (im_depth im' == d))
    [seq cv2_resize im rw rh | im <- [seq frames feed i | i <- iota 1 n]].
apply/(all_nthP (Image 0 0 0)) => i; rewrite !size_map size_iota => ilt.
rewrite (nth_map (Image 0 0 0)) ?size_map ?size_iota //.
by rewrite (nth_map 0%N) ?size_iota // nth_iota //= eqxx depths ?eqxx // add1n.
Qed.

End EnvMore.

Section Readings.
Variable F : realFieldType.








End Readings.

(** ** Concrete runs *)

Local Notation K0 := unit_calibration.
Local Notation tick0 :=
  (_apply_retargeted_angles unit_calibration quat2mat_id mat2quat_id
     still_feeds).
Local Notation run0 :=
  (stream unit_calibration quat2mat_id mat2quat_id still_feeds).
Local Notation c0 := (Channels_init rat).

Lemma unit_calibration_box i :
  ROBOT_WORKSPACE_MIN K0 i 0 <= ROBOT_WORKSPACE_MAX K0 i 0.
Proof. by rewrite !mxE ler01. Qed.

Lemma shifted_affine_unit : shifted_affine \in unitmx.
Proof.
have det_shifted :
    \det shifted_affine = \det (1%:M : 'M[rat]_3) * \det (1 : 'M[rat]_1).
  exact: (@det_ublock _ 3 1 1%:M (const_mx 1) 1).
by rewrite unitmxE det_shifted !det1 mulr1 unitr1.
Qed.

Lemma penrose_flat_affine : penrose flat_affine flat_affine.
Proof.
by split; rewrite ?flat_affine_idem ?flat_affine_sym ?flat_affine_idem.
Qed.

Lemma get_relative_affine_flat :
  get_relative_affine K0 flat_affine 1%:M = flat_affine.
Proof.
rewrite /get_relative_affine pinv_flat_affine /= pinv_unit ?unitmx1 //.
rewrite invmx1 !mulmx1 mul1mx /flat_affine.
by rewrite rot_block_homogeneous trans_block_homogeneous.
Qed.

Lemma well_formed_homed_idle : well_formed homed_idle.
Proof. by []. Qed.

(** C1 at the translation by (1, 1, 1), against the identity pose. *)
Lemma get_relative_affine_invertible_witness :
  [/\ H_R_V K0 \in unitmx, H_R_V_star K0 \in unitmx, shifted_affine \in unitmx
    & let H_delta := invmx shifted_affine *m 1%:M in
      let relative_affine := get_relative_affine K0 shifted_affine 1%:M in
      [/\ rot_block relative_affine
            = rot_block (invmx (H_R_V K0) *m H_delta *m H_R_V K0),
          trans_block relative_affine
            = trans_block (invmx (H_R_V_star K0) *m H_delta *m H_R_V_star K0)
        & bottom_row relative_affine = row_0001 rat]].
Proof.
have [Hu Hsu] := unit_calibration_unit.
split; [exact: Hu | exact: Hsu | exact: shifted_affine_unit |].
exact: (@get_relative_affine_invertible _ K0 shifted_affine 1%:M
          Hu Hsu shifted_affine_unit).
Defined.

(** C7 at the translation by (1, 1, 1). *)
Lemma get_relative_affine_same_witness :
  [/\ H_R_V K0 \in unitmx, H_R_V_star K0 \in unitmx, shifted_affine \in unitmx
    & get_relative_affine K0 shifted_affine shifted_affine = 1%:M].
Proof.
have [Hu Hsu] := unit_calibration_unit.
split; [exact: Hu | exact: Hsu | exact: shifted_affine_unit |].
exact: (@get_relative_affine_same _ K0 shifted_affine
          Hu Hsu shifted_affine_unit).
Defined.

(** C6 fails on the code: for the singular [flat_affine] the call returns a
    matrix, built from the pseudo-inverse, and an engaged tick whose
    initial affine is [flat_affine] returns and sends its action. *)
Lemma singular_init_affine_returns :
  [/\ flat_affine \notin unitmx,
      pinv flat_affine = flat_affine,
      get_relative_affine K0 flat_affine 1%:M = flat_affine
    & exists s' c' action,
        tick0 (Some sample_none) engaged_flat c0 = Returned s' c'
        /\ sent c' = [:: action]].
Proof.
split; [exact: flat_affine_singular | exact: pinv_flat_affine
       | exact: get_relative_affine_flat |].
by rewrite /_apply_retargeted_angles /= update_gripperE /=; eexists _, _, _.
Qed.

(** C6, amended, at the singular [flat_affine], which is its own
    pseudo-inverse. *)
Lemma get_relative_affine_pseudo_inverse_witness :
  penrose flat_affine flat_affine
  /\ get_relative_affine K0 flat_affine 1%:M =
     homogeneous
       (rot_block (pinv (H_R_V K0) *m (flat_affine *m 1%:M) *m H_R_V K0))
       (trans_block (pinv (H_R_V_star K0) *m (flat_affine *m 1%:M)
                     *m H_R_V_star K0)).
Proof.
split; first exact: penrose_flat_affine.
exact: (@get_relative_affine_pseudo_inverse _ K0 flat_affine 1%:M
          flat_affine penrose_flat_affine).
Defined.


(** C2 on the tick that engages a homed operator. *)
Lemma engaged_tick_command_witness :
  [/\ well_formed homed_idle,
      forall i, ROBOT_WORKSPACE_MIN K0 i 0 <= ROBOT_WORKSPACE_MAX K0 i 0,
      engaged_on sample_a homed_idle
    & exists s' c' action hp hr A,
      [/\ tick0 (Some sample_a) homed_idle c0 = Returned s' c'
          /\ start_teleop s',
          [/\ home_pos s' = Some hp, home_rot s' = Some hr
            & init_affine s' = Some A],
          commanded c' = rcons (commanded c0) action
        & let relative_affine :=
            get_relative_affine K0 A (right_affine sample_a) in
          let target_pos := hp + trans_block relative_affine in
          [/\ FrankaAction.pos action
              = np_clip target_pos (ROBOT_WORKSPACE_MIN K0)
                  (ROBOT_WORKSPACE_MAX K0),
              forall i,
                FrankaAction.pos action i 0 =
                (if target_pos i 0 < ROBOT_WORKSPACE_MIN K0 i 0
                 then ROBOT_WORKSPACE_MIN K0 i 0
                 else if ROBOT_WORKSPACE_MAX K0 i 0 < target_pos i 0
                 then ROBOT_WORKSPACE_MAX K0 i 0
                 else target_pos i 0),
              forall i,
                ROBOT_WORKSPACE_MIN K0 i 0 <= FrankaAction.pos action i 0
                <= ROBOT_WORKSPACE_MAX K0 i 0
            & FrankaAction.quat action
              = mat2quat_id (hr *m rot_block relative_affine)]]].
Proof.
split; [by [] | exact: unit_calibration_box | by [] |].
exact: (@engaged_tick_command _ K0 quat2mat_id mat2quat_id still_feeds
          sample_a homed_idle c0 well_formed_homed_idle unit_calibration_box
          isT).
Defined.

(** C3 on the first two ticks of a fresh operator. *)
Lemma gripper_follows_triggers_witness :
  well_formed (FrankaOperator_init K0)
  /\ exists s' c',
     [/\ run0 [seq Some cs | cs <- [:: sample_none; sample_a]]
           (FrankaOperator_init K0) c0 = Returned s' c',
         gripper_state s'
         = foldl (next_gripper K0) (gripper_state (FrankaOperator_init K0))
             [:: sample_none; sample_a],
         [seq FrankaAction.gripper a | a <- commanded c'] =
         [seq FrankaAction.gripper a | a <- commanded c0]
         ++ scanl (next_gripper K0) (gripper_state (FrankaOperator_init K0))
              [:: sample_none; sample_a]
       & all (@low_triggers rat) [:: sample_none; sample_a] ->
         gripper_state s' = gripper_state (FrankaOperator_init K0)].
Proof.
split; first by [].
exact: (@gripper_follows_triggers _ K0 quat2mat_id mat2quat_id still_feeds
          [:: sample_none; sample_a] (FrankaOperator_init K0) c0 isT).
Defined.

(** C10 on a homed operator with both buttons pressed. *)
Lemma disengage_takes_precedence_witness :
  [/\ right_a sample_ab, right_b sample_ab
    & exists s' c' action,
      [/\ tick0 (Some sample_ab) homed_idle c0 = Returned s' c',
          start_teleop s' = false /\ init_affine s' = None,
          [/\ (robot_reads c0 < robot_reads c')%N,
              home_rot s'
              = Some (quat2mat_id
                        (FrankaState.quat (last_robot_state still_feeds c')))
            & home_pos s'
              = Some (FrankaState.pos (last_robot_state still_feeds c'))],
          commanded c' = rcons (commanded c0) action
        & [/\ FrankaAction.pos action
              = FrankaState.pos (last_robot_state still_feeds c'),
              FrankaAction.quat action
              = mat2quat_id
                  (quat2mat_id
                     (FrankaState.quat (last_robot_state still_feeds c')))
            & FrankaAction.reset action = false]]].
Proof.
split; [by [] | by [] |].
exact: (@disengage_takes_precedence _ K0 quat2mat_id mat2quat_id still_feeds
          sample_ab homed_idle c0 isT isT).
Defined.

(** C9 fails on the code: handed no sample, the tick raises; on the first
    frame it has sent the reset action by then. *)
Lemma missing_sample_raises :
  tick0 None homed_idle c0 = Raised AttributeError homed_idle c0
  /\ exists s' c' action,
     [/\ tick0 None (FrankaOperator_init K0) c0 = Raised AttributeError s' c',
         sent c' = [:: action], FrankaAction.reset action
       & home_pos s' = Some (FrankaState.pos robot_at_rest)].
Proof. by split=> //; eexists _, _, _. Qed.

(** C9, amended, on a homed operator. *)
Lemma no_sample_raises_witness :
  well_formed homed_idle
  /\ ((exists s' c',
        [/\ tick0 None homed_idle c0 = Raised AttributeError s' c',
            [/\ gripper_state s' = gripper_state homed_idle,
                start_teleop s' = start_teleop homed_idle
              & init_affine s' = init_affine homed_idle],
            commanded c' = commanded c0
          & ~~ is_first_frame homed_idle ->
            [/\ sent c' = sent c0, home_rot s' = home_rot homed_idle
              & home_pos s' = home_pos homed_idle]])
      /\ (exists s' c' action,
           [/\ tick0 (Some sample_none) homed_idle c0 = Returned s' c',
               commanded c' = rcons (commanded c0) action
             & FrankaAction.reset action = false])).
Proof.
split; first by [].
exact: (@no_sample_raises _ K0 quat2mat_id mat2quat_id still_feeds
          sample_none homed_idle c0 isT).
Defined.

Local Notation tick1 :=
  (_apply_retargeted_angles unit_calibration quat2mat_id mat2quat_id
     clamped_feeds).
Local Notation run1 :=
  (stream unit_calibration quat2mat_id mat2quat_id clamped_feeds).

(** C8 fails on the code: a fresh operator is homed at (2, 2, 2), outside
    the unit cube that is its workspace.  The tick before the engagement
    commands (2, 2, 2); the engage tick commands the clamped (1, 1, 1); the
    robot, read at the disengage tick, is at (1, 1, 1), and so is the
    command after the disengagement, though the controller has not
    moved. *)
Lemma round_trip_moves_command :
  exists s1 c1 s' c' before engaged disengaged after,
  [/\ tick1 (Some sample_none) (FrankaOperator_init K0) c0 = Returned s1 c1
      /\ [/\ is_first_frame s1 = false, start_teleop s1 = false
           & home_pos s1 = Some (const_mx 2%:R)],
      run1 [:: Some sample_none; Some sample_a; Some sample_b;
               Some sample_none] s1 c1 = Returned s' c'
      /\ commanded c'
         = commanded c1 ++ [:: before; engaged; disengaged; after],
      right_affine sample_b = right_affine sample_a,
      [/\ FrankaAction.pos before = const_mx 2%:R,
          FrankaAction.pos engaged = const_mx 1
        & FrankaAction.pos after = const_mx 1]
    & FrankaAction.pos after != FrankaAction.pos before].
Proof.
have [Hu Hsu] := unit_calibration_unit.
have idle0 : engaged_on sample_none (FrankaOperator_init K0) = false by [].
have [s1 [c1 [act0 [hr0 [hp0 [tickE [wf1 ff1 st1 _] [hrE hpE hm] rd _]]]]]] :=
  @idle_tick _ K0 quat2mat_id mat2quat_id clamped_feeds sample_none
    (FrankaOperator_init K0) c0 (well_formed_init K0) idle0.
move: hm; rewrite /= /last_robot_state rd /= hrE hpE => -[hr0E hp0E].
have [s' [c' [act1 [act2 [act3 [act4 [runE [p1 _] [p2 _] _ [_ _ p4 _]]]]]]]] :=
  @round_trip_run _ K0 quat2mat_id mat2quat_id clamped_feeds
    sample_none sample_a sample_b sample_none s1 c1 hr0 hp0
    wf1 ff1 st1 hrE hpE isT isT isT isT.
move: p2 p4; rewrite rd /= get_relative_affine_self ?unitmx1 //.
rewrite trans_block_id addr0 hp0E => p2 p4.
have clampE : np_clip (const_mx 2%:R) (ROBOT_WORKSPACE_MIN K0)
                (ROBOT_WORKSPACE_MAX K0) = const_mx 1 :> 'cV[rat]_3.
  apply/matrixP => i j; rewrite !ord1 np_clipE ?unit_calibration_box //.
  by rewrite !mxE.
exists s1, c1, s', c', act1, act2, act3, act4; split=> //.
- by rewrite hpE hp0E.
- by rewrite p1 p2 clampE hp0E.
- rewrite p4 p1 hp0E; apply/eqP => /matrixP/(_ 0 0).
  by rewrite !mxE.
Qed.

(** C8, amended, on a homed operator: no button, A, B, no button. *)
Lemma engage_disengage_round_trip_witness :
  [/\ [/\ well_formed homed_idle, is_first_frame homed_idle = false,
          start_teleop homed_idle = false, home_rot homed_idle = Some 1%:M
        & home_pos homed_idle = Some 0],
      [/\ ~~ right_a sample_none && ~~ right_b sample_none,
          right_a sample_a && ~~ right_b sample_a & right_b sample_b]
    & let robot_state := robot_states still_feeds (robot_reads c0) in
      let hr' := quat2mat_id (FrankaState.quat robot_state) in
      let hp' := FrankaState.pos robot_state in
      exists s' c' before engaged disengaged after,
      [/\ run0 [:: Some sample_none; Some sample_a; Some sample_b;
                   Some sample_none] homed_idle c0 = Returned s' c'
          /\ commanded c'
             = commanded c0 ++ [:: before; engaged; disengaged; after],
          FrankaAction.pos before = 0
          /\ FrankaAction.quat before = mat2quat_id 1%:M,
          [/\ [/\ start_teleop s' = false, init_affine s' = None,
                  home_rot s' = Some hr' & home_pos s' = Some hp'],
              FrankaAction.pos disengaged = hp'
              /\ FrankaAction.quat disengaged = mat2quat_id hr'
            & FrankaAction.pos after = hp'
              /\ FrankaAction.quat after = mat2quat_id hr'],
          (FrankaAction.pos after = FrankaAction.pos before
           /\ FrankaAction.quat after = FrankaAction.quat before)
          <-> (hp' = 0 /\ mat2quat_id hr' = mat2quat_id 1%:M)
        & H_R_V K0 \in unitmx -> H_R_V_star K0 \in unitmx ->
          right_affine sample_a \in unitmx ->
          FrankaAction.pos engaged
          = np_clip 0 (ROBOT_WORKSPACE_MIN K0) (ROBOT_WORKSPACE_MAX K0)
          /\ FrankaAction.quat engaged = mat2quat_id 1%:M]].
Proof.
split; [by [] | by [] |].
exact: (@engage_disengage_round_trip _ K0 quat2mat_id mat2quat_id still_feeds
          sample_none sample_a sample_b sample_none homed_idle c0 1%:M 0
          isT erefl erefl erefl erefl isT isT isT isT).
Defined.

(** ** Concrete runs of the further properties *)

Local Notation MIN0 := (ROBOT_WORKSPACE_MIN unit_calibration).
Local Notation MAX0 := (ROBOT_WORKSPACE_MAX unit_calibration).
Local Notation pose_of a := (FrankaAction.pos a, FrankaAction.quat a).

(** X1 with the translation by (1, 1, 1) for frame change and pose. *)
Lemma get_relative_affine_frame_invariant_witness :
  [/\ shifted_affine \in unitmx, shifted_affine \in unitmx
    & get_relative_affine K0 (shifted_affine *m shifted_affine)
        (shifted_affine *m 1%:M)
      = get_relative_affine K0 shifted_affine 1%:M].
Proof.
split; [exact: shifted_affine_unit | exact: shifted_affine_unit |].
exact: (@get_relative_affine_frame_invariant _ K0 shifted_affine
          shifted_affine 1%:M shifted_affine_unit shifted_affine_unit).
Defined.

(** X2 with identity alignment, from the translation by (1, 1, 1) back to
    the origin. *)
Lemma get_relative_affine_rigid_witness :
  [/\ H_R_V K0 = homogeneous 1%:M 0 /\ H_R_V_star K0 = homogeneous 1%:M 0,
      (1%:M : 'M[rat]_3) \in unitmx
    & get_relative_affine K0 (homogeneous 1%:M (const_mx 1))
        (homogeneous 1%:M 0) =
      homogeneous (invmx 1%:M *m (invmx 1%:M *m 1%:M) *m 1%:M)
        (invmx 1%:M *m (invmx 1%:M *m (0 - const_mx 1)))].
Proof.
have idE : H_R_V K0 = homogeneous 1%:M 0 by rewrite /= homogeneous_id.
have idsE : H_R_V_star K0 = homogeneous 1%:M 0 by rewrite /= homogeneous_id.
split; [by split | exact: unitmx1 |].
exact: (@get_relative_affine_rigid _ K0 1%:M 1%:M 1%:M 1%:M (const_mx 1) 0
          idE idsE (unitmx1 _ _) (unitmx1 _ _) (unitmx1 _ _)).
Defined.

(** X4 on a fresh operator: no button, then B. *)
Lemma robot_state_reads_witness :
  well_formed (FrankaOperator_init K0)
  /\ exists s' c',
       run0 [seq Some cs | cs <- [:: sample_none; sample_b]]
         (FrankaOperator_init K0) c0 = Returned s' c'
       /\ robot_reads c' =
          (robot_reads c0
           + (is_first_frame (FrankaOperator_init K0)
              && ~~ nilp [:: sample_none; sample_b])
           + count (@right_b rat) [:: sample_none; sample_b])%N.
Proof.
split; first by [].
exact: (@robot_state_reads _ K0 quat2mat_id mat2quat_id still_feeds
          [:: sample_none; sample_b] (FrankaOperator_init K0) c0 isT).
Defined.

(** X5 on a homed operator: one sample, then none. *)
Lemma stream_stops_at_missing_sample_witness :
  well_formed homed_idle
  /\ exists s' c' targets,
     [/\ run0 ([seq Some cs | cs <- [:: sample_none]] ++ None :: [:: Some sample_a])
           homed_idle c0 = Raised AttributeError s' c',
         commanded c' = commanded c0 ++ targets
       & size targets = size [:: sample_none]].
Proof.
split; first by [].
exact: (@stream_stops_at_missing_sample _ K0 quat2mat_id mat2quat_id
          still_feeds [:: sample_none] [:: Some sample_a] homed_idle c0 isT).
Defined.

(** X6 on the tick that engages a homed operator. *)
Lemma engaged_at_rest_witness :
  [/\ well_formed homed_idle /\ engaged_on sample_a homed_idle,
      right_a sample_a
      \/ init_affine homed_idle = Some (right_affine sample_a),
      [/\ H_R_V K0 \in unitmx, H_R_V_star K0 \in unitmx
        & right_affine sample_a \in unitmx]
    & exists s' c' action hp hr,
      [/\ tick0 (Some sample_a) homed_idle c0 = Returned s' c',
          init_affine s' = Some (right_affine sample_a),
          home_pos s' = Some hp /\ home_rot s' = Some hr,
          commanded c' = rcons (commanded c0) action
        & FrankaAction.pos action = np_clip hp MIN0 MAX0
          /\ FrankaAction.quat action = mat2quat_id hr]].
Proof.
have [Hu Hsu] := unit_calibration_unit.
have Pu : right_affine sample_a \in unitmx by rewrite /= unitmx1.
split; [by [] | by left | by split |].
exact: (@engaged_at_rest _ K0 quat2mat_id mat2quat_id still_feeds sample_a
          homed_idle c0 isT isT (or_introl isT) Hu Hsu Pu).
Defined.

(** X7 on the tick that engages a homed operator. *)
Lemma workspace_clamp_fixed_witness :
  (well_formed homed_idle /\ engaged_on sample_a homed_idle)
  /\ exists s' c' action hp A,
     [/\ tick0 (Some sample_a) homed_idle c0 = Returned s' c',
         home_pos s' = Some hp /\ init_affine s' = Some A,
         commanded c' = rcons (commanded c0) action,
         np_clip (FrankaAction.pos action) MIN0 MAX0 = FrankaAction.pos action
       & let target_pos :=
           hp + trans_block (get_relative_affine K0 A (right_affine sample_a))
         in
         (forall i, MIN0 i 0 <= target_pos i 0 <= MAX0 i 0) ->
         FrankaAction.pos action = target_pos].
Proof.
split; first by [].
exact: (@workspace_clamp_fixed _ K0 quat2mat_id mat2quat_id still_feeds
          sample_a homed_idle c0 isT isT).
Defined.

(** X8 on the operator engaged at [flat_affine], one sample. *)
Lemma engaged_run_witness :
  [/\ well_formed engaged_flat /\ is_first_frame engaged_flat = false,
      home_rot engaged_flat = Some 1%:M /\ home_pos engaged_flat = Some 0,
      start_teleop engaged_flat /\ init_affine engaged_flat = Some flat_affine,
      all (fun cs : ControllerState rat => ~~ right_a cs && ~~ right_b cs)
        [:: sample_none]
    & exists s' c',
      [/\ run0 [seq Some cs | cs <- [:: sample_none]] engaged_flat c0
          = Returned s' c',
          [/\ start_teleop s', init_affine s' = Some flat_affine,
              home_rot s' = Some 1%:M & home_pos s' = Some 0],
          robot_reads c' = robot_reads c0
        & [seq pose_of a | a <- commanded c'] =
          [seq pose_of a | a <- commanded c0]
          ++ [seq (let relative_affine :=
                     get_relative_affine K0 flat_affine (right_affine cs) in
                   (np_clip (0 + trans_block relative_affine) MIN0 MAX0,
                    mat2quat_id (1%:M *m rot_block relative_affine)))
             | cs <- [:: sample_none]]]].
Proof.
split; [by [] | by [] | by [] | by [] |].
exact: (@engaged_run _ K0 quat2mat_id mat2quat_id still_feeds
          [:: sample_none] engaged_flat c0 1%:M 0 flat_affine
          isT erefl erefl erefl isT erefl isT).
Defined.

(** X9 on a homed operator, two samples. *)
Lemma idle_run_witness :
  [/\ well_formed homed_idle /\ is_first_frame homed_idle = false,
      home_rot homed_idle = Some 1%:M /\ home_pos homed_idle = Some 0,
      start_teleop homed_idle = false,
      all (fun cs : ControllerState rat => ~~ right_a cs && ~~ right_b cs)
        [:: sample_none; sample_none]
    & exists s' c',
      [/\ run0 [seq Some cs | cs <- [:: sample_none; sample_none]]
            homed_idle c0 = Returned s' c',
          [/\ start_teleop s' = false,
              init_affine s' = init_affine homed_idle,
              home_rot s' = Some 1%:M & home_pos s' = Some 0],
          robot_reads c' = robot_reads c0
        & [seq pose_of a | a <- commanded c'] =
          [seq pose_of a | a <- commanded c0]
          ++ nseq (size [:: sample_none; sample_none]) (0, mat2quat_id 1%:M)]].
Proof.
split; [by [] | by [] | by [] | by [] |].
exact: (@idle_run _ K0 quat2mat_id mat2quat_id still_feeds
          [:: sample_none; sample_none] homed_idle c0 1%:M 0
          isT erefl erefl erefl erefl isT).
Defined.

(** X10 on one camera. *)
Lemma camera_record_witness :
  [/\ use_robot camera_env, image_subscribers camera_env = Some 1%N,
      is_reskin (sensor_type camera_env) = false
    & frames_resizable tactile_feed (width camera_env) (height camera_env) 1]
  /\ exists obs env',
     [/\ reset tactile_feed camera_env = Ok obs env'
         /\ step tactile_feed (0 :: nseq 6 0) camera_env
            = Ok (obs, reward camera_env, false) env',
         dict_get "features" obs
         = Some (Vector (features (state_reply tactile_feed)))
         /\ dict_get "proprioceptive" obs
            = Some (Vector (features (state_reply tactile_feed))),
         size (features (state_reply tactile_feed)) = 8%N,
         forall i,
           dict_get (String.append "pixels" (str i)) obs =
           if (i < 1)%N
           then Some (Pixels rat (height camera_env) (width camera_env)
                        (im_depth (frames tactile_feed i)))
           else None
       & franka_state env' = Some (state_reply tactile_feed)
         /\ curr_images env'
            = Some [seq frames tactile_feed i | i <- iota 0 1]].
Proof.
split; first by [].
exact: (@camera_record _ tactile_feed camera_env 1 0 (nseq 6 0)
          isT erefl erefl isT).
Defined.



(** X13 on the feed that reads thirty values. *)
Lemma init_with_tactile_sensor_raises_witness :
  (forall raw, sensor_state tactile_feed = Some raw -> (1 < size raw)%N)
  /\ exists e env,
       FrankaEnv_init tactile_feed 1 640 480 true (Some "reskin"%string)
         (Some (Some true))
       = Raise unit e env.
Proof.
have thirty raw : sensor_state tactile_feed = Some raw -> (1 < size raw)%N.
  by case=> <-.
split; first exact: thirty.
exact: (@init_with_tactile_sensor_raises _ tactile_feed 1 640 480
          (Some (Some true)) thirty).
Defined.

(** X14 on the environment with one camera and no tactile sensor. *)
Lemma render_before_reset_witness :
  FrankaEnv_init tactile_feed 1 640 480 true None None = Ok tt camera_env
  /\ render "rgb_array" 640 480 camera_env
     = inr (RenderRaised AssertionError).
Proof.
have initE :
    FrankaEnv_init tactile_feed 1 640 480 true None None = Ok tt camera_env.
  by [].
split; first exact: initE.
exact: (@render_before_reset _ tactile_feed 1 640 480 true None None
          camera_env "rgb_array" 640 480 initE).
Defined.

(** X15 after the [reset] of the environment with one camera, rendered
    at 320 by 240. *)
Lemma render_after_reset_witness :
  [/\ use_robot camera_env, image_subscribers camera_env = Some 1%N,
      frames_resizable tactile_feed (width camera_env) (height camera_env) 1,
      reset tactile_feed camera_env = Ok camera_obs camera_env_after
    & forall i, (i < 1)%N -> im_depth (frames tactile_feed i) = 3%N]
  /\ [/\ (0 < 1)%N -> frames_resizable tactile_feed 320 240 1 ->
         render "rgb_array" 320 240 camera_env_after
         = inl (Image 240 (320 * 1) 3),
         1%N = 0%N ->
         render "rgb_array" 320 240 camera_env_after
         = inr (RenderRaised ValueError),
         frames_resizable tactile_feed 320 240 1 = false ->
         render "rgb_array" 320 240 camera_env_after = inr cv2_error
       & String.eqb "human" "rgb_array" = false ->
         render "human" 320 240 camera_env_after = inr NotImplementedError].
Proof.
have resetE : reset tactile_feed camera_env = Ok camera_obs camera_env_after.
  by [].
have depths i : (i < 1)%N -> im_depth (frames tactile_feed i) = 3%N by [].
split; first by [].
exact: (@render_after_reset _ tactile_feed camera_env 1 camera_obs
          camera_env_after 320 240 3 "human" isT erefl isT resetE depths).
Defined.



